(** * Vertopal JavaScript client: transport, chunking, workflow and
      error classification, embedded in Rocq

    The definitions below follow the TypeScript sources function by
    function:
    - [Js]              the JavaScript values that reach the code (decoded
                        JSON plus [undefined]) and the operators used on them;
    - [ErrorWrapper]    utils/dataWrappers.ts;
    - [Exceptions]      common/exceptions.ts (the class hierarchy);
    - [ExceptionHandler] utils/exceptionHandler.ts;
    - [Interface]       api/interface.ts ([request]'s timeout selection and
                        [sendRequest]'s retry loop);
    - [StreamChunker]   utils/streamChunker.ts;
    - [Misc]            utils/misc.ts ([canonicalizeFormat]);
    - [Conversion]      api/converter.ts ([wait]). *)

From Stdlib Require Import ZArith List String Ascii Bool Lia Arith.
From Stdlib Require Import DecimalString.
From Stdlib Require Strings.Byte.
Import ListNotations.

#[local] Set Warnings "-register-all".

Local Open Scope string_scope.
Local Open Scope Z_scope.

(* ================================================================== *)
(** * JavaScript values *)

Module Js.

(** A decoded JSON document, extended with [undefined], which a property
    read on a missing key produces.  Objects are association lists read by
    first match.  Numbers are integer-valued: only their being zero or not
    and their decimal rendering are ever observed by the code below. *)
Inductive value : Type :=
| VUndefined
| VNull
| VBool (b : bool)
| VNum (n : Z)
| VStr (s : string)
| VArr (items : list value)
| VObj (fields : list (string * value)).

(** A thrown value aborts the computation; everything else is [Ok]. *)
Inductive completion (E A : Type) : Type :=
| Ok (a : A)
| Throw (e : E).
Arguments Ok {E A} a.
Arguments Throw {E A} e.

Definition bind {E A B} (c : completion E A) (k : A -> completion E B)
  : completion E B :=
  match c with
  | Ok a => k a
  | Throw e => Throw e
  end.

Declare Scope js_scope.
Delimit Scope js_scope with js.
Notation "x <- c ;; k" := (bind c (fun x => k))
  (at level 61, c at next level, right associativity) : js_scope.

(** The only runtime error the classifier could meet: reading a property
    of [null] or [undefined]. *)
Inductive type_error : Type := TypeError.

(** [typeof v === 'object'] : true for objects, arrays and [null]. *)
Definition typeof_object (v : value) : bool :=
  match v with
  | VNull | VArr _ | VObj _ => true
  | _ => false
  end.

(** ToBoolean. *)
Definition truthy (v : value) : bool :=
  match v with
  | VUndefined | VNull => false
  | VBool b => b
  | VNum n => negb (n =? 0)
  | VStr s => negb (String.eqb s "")
  | VArr _ | VObj _ => true
  end.

Fixpoint lookup (key : string) (fields : list (string * value)) : value :=
  match fields with
  | [] => VUndefined
  | (k, v) :: rest => if String.eqb k key then v else lookup key rest
  end.

(** [v[key]] for the keys the library reads ([error], [result], [output],
    [warning], [code], [message]): none of them is an index or a member of a
    built-in prototype, so arrays and primitives answer [undefined]. *)
Definition get (v : value) (key : string) : completion type_error value :=
  match v with
  | VUndefined | VNull => Throw TypeError
  | VObj fields => Ok (lookup key fields)
  | _ => Ok VUndefined
  end.

(** [v?.key] *)
Definition get_opt (v : value) (key : string) : completion type_error value :=
  match v with
  | VUndefined | VNull => Ok VUndefined
  | _ => get v key
  end.

(** [a ?? b] *)
Definition nullish (a b : value) : value :=
  match a with
  | VUndefined | VNull => b
  | _ => a
  end.

Definition string_of_Z (n : Z) : string :=
  NilZero.string_of_int (Z.to_int n).

(** ToString, as a template literal or a property key applies it.
    Array elements that are [null] or [undefined] render as the empty
    string inside [join].  Exact for strings, booleans, [null],
    [undefined], integers below 10^21 in magnitude, and objects and arrays
    built from them that carry no [toString] or [valueOf] key of their
    own. *)
Fixpoint to_string (v : value) : string :=
  match v with
  | VUndefined => "undefined"
  | VNull => "null"
  | VBool true => "true"
  | VBool false => "false"
  | VNum n => string_of_Z n
  | VStr s => s
  | VArr items =>
      (fix join (l : list value) : string :=
         match l with
         | [] => ""
         | x :: rest =>
             let element :=
               match x with
               | VUndefined | VNull => ""
               | _ => to_string x
               end in
             match rest with
             | [] => element
             | _ :: _ => element ++ "," ++ join rest
             end
         end) items
  | VObj _ => "[object Object]"
  end.

End Js.

(* ================================================================== *)
(** * utils/dataWrappers.ts : [ErrorWrapper] *)

Module ErrorWrapper.
Import Js.
Local Open Scope js_scope.

(** [getByPath(data, path)]: walks [path]; a missing key or a value that is
    not a non-null object gives [null]. *)
Fixpoint getByPath (data : value) (path : list string)
  : completion type_error value :=
  match path with
  | [] => Ok data
  | key :: rest =>
      if typeof_object data && negb (match data with VNull => true | _ => false end)
      then
        data' <- get data key ;;
        match data' with
        | VUndefined => Ok VNull
        | _ => getByPath data' rest
        end
      else Ok VNull
  end.

Definition errorPaths : list (list string) :=
  [ [];
    ["error"];
    ["result"; "error"];
    ["result"; "output"; "result"; "error"] ].

Definition warningPaths : list (list string) :=
  [ ["warning"];
    ["result"; "warning"];
    ["result"; "output"; "warning"];
    ["result"; "output"; "result"; "warning"] ].

(** [typeof err === 'object' && (err?.code || err?.message)], coerced to a
    boolean as [some] and [if] do. *)
Definition bearsCodeOrMessage (err : value) : completion type_error bool :=
  if typeof_object err then
    c <- get_opt err "code" ;;
    if truthy c then Ok true
    else
      m <- get_opt err "message" ;;
      Ok (truthy m)
  else Ok false.

(** [paths.some(path => ...)] *)
Fixpoint somePath (response : value) (paths : list (list string))
  : completion type_error bool :=
  match paths with
  | [] => Ok false
  | path :: rest =>
      err <- getByPath response path ;;
      hit <- bearsCodeOrMessage err ;;
      if hit then Ok true else somePath response rest
  end.

Definition hasError (response : value) : completion type_error bool :=
  somePath response errorPaths.

(** The [for ... of] loop of [getError]: first hit is returned. *)
Fixpoint firstAt (response : value) (paths : list (list string))
  : completion type_error value :=
  match paths with
  | [] => Ok (VObj [])
  | path :: rest =>
      err <- getByPath response path ;;
      hit <- bearsCodeOrMessage err ;;
      if hit then Ok err else firstAt response rest
  end.

Definition getError (response : value) : completion type_error value :=
  firstAt response errorPaths.

Definition getErrorMessage (response : value) : completion type_error value :=
  e <- getError response ;;
  m <- get e "message" ;;
  Ok (nullish m (VStr "No error message available.")).

Definition getErrorCode (response : value) : completion type_error value :=
  e <- getError response ;;
  c <- get e "code" ;;
  Ok (nullish c (VStr "UNKNOWN_ERROR")).

Definition hasWarning (response : value) : completion type_error bool :=
  somePath response warningPaths.

(** [getWarnings]: every hit is pushed, in path order. *)
Fixpoint collectAt (response : value) (paths : list (list string))
  : completion type_error (list value) :=
  match paths with
  | [] => Ok []
  | path :: rest =>
      warn <- getByPath response path ;;
      hit <- bearsCodeOrMessage warn ;;
      more <- collectAt response rest ;;
      Ok (if hit then warn :: more else more)
  end.

Definition getWarnings (response : value) : completion type_error (list value) :=
  collectAt response warningPaths.

(** [{}] *)
Definition isEmptyObject (v : value) : bool :=
  match v with
  | VObj [] => true
  | _ => false
  end.

End ErrorWrapper.

(* ================================================================== *)
(** * common/exceptions.ts : the exception classes *)

Module Exceptions.

(** The classes of common/exceptions.ts, and the built-in classes whose
    instances reach [sendRequest]'s [catch]. *)
Inductive class : Type :=
| Error
| SyntaxError
| TypeError
| DOMException
| APIException
| OtherError
| InputNotFoundError
| NetworkConnectionError
| APIResponseError
| InvalidJSONResponseError
| APIError
| InternalServerError
| NotFoundError
| PostMethodAllowedError
| MissingAuthorizationHeaderError
| InvalidAuthorizationHeaderError
| InvalidFieldError
| MissingRequiredFieldError
| WrongTypeFieldError
| InvalidDataKeyError
| MissingRequiredDataKeyError
| WrongTypeDataKeyError
| WrongValueDataKeyError
| InvalidCredentialError
| FreePlanDisallwedError
| InsufficentVCreditsError
| InvalidCallbackError
| UnverifiedDomainCallbackError
| NoConnectorDependentTaskError
| NotReadyDependentTaskError
| MismatchVersionDependentTaskError
| MismatchDependentTaskError
| FileNotExistsError
| DownloadExpiredError
| OnlyDevelopmentRequestError
| InvalidParameterError
| MissingRequiredParameterError
| WrongTypeParameterError
| WrongValueParameterError
| OnlyDevelopmentFileError
| NotValidExtensionError
| LimitUploadSizeError
| EmptyFileError
| WrongOutputFormatStructureError
| InvalidOutputFormatError
| WrongInputFormatStructureError
| InvalidInputFormatError
| NoConverterInputToOutputError
| NotMatchExtensionAndInputError
| TooManyRequestsError
| FreeAppLimitedError
| DisabledForFreeAppError
| WrongFormatStructureError
| InvalidFormatError
| FailedConvertError
| HTTPResponseError
| APITaskError
| EntityStatusNotRunningError
| OutputWriteError
| APIWarning.

(** [class C extends P] *)
Definition extends (c : class) : option class :=
  match c with
  | Error => None
  | SyntaxError => Some Error
  | TypeError => Some Error
  | DOMException => Some Error
  | APIException => Some Error
  | OtherError => Some APIException
  | InputNotFoundError => Some APIException
  | NetworkConnectionError => Some APIException
  | APIResponseError => Some APIException
  | InvalidJSONResponseError => Some APIResponseError
  | APIError => Some APIResponseError
  | InternalServerError => Some APIError
  | NotFoundError => Some APIError
  | PostMethodAllowedError => Some APIError
  | MissingAuthorizationHeaderError => Some APIError
  | InvalidAuthorizationHeaderError => Some APIError
  | InvalidFieldError => Some APIError
  | MissingRequiredFieldError => Some APIError
  | WrongTypeFieldError => Some APIError
  | InvalidDataKeyError => Some APIError
  | MissingRequiredDataKeyError => Some APIError
  | WrongTypeDataKeyError => Some APIError
  | WrongValueDataKeyError => Some APIError
  | InvalidCredentialError => Some APIError
  | FreePlanDisallwedError => Some APIError
  | InsufficentVCreditsError => Some APIError
  | InvalidCallbackError => Some APIError
  | UnverifiedDomainCallbackError => Some APIError
  | NoConnectorDependentTaskError => Some APIError
  | NotReadyDependentTaskError => Some APIError
  | MismatchVersionDependentTaskError => Some APIError
  | MismatchDependentTaskError => Some APIError
  | FileNotExistsError => Some APIError
  | DownloadExpiredError => Some APIError
  | OnlyDevelopmentRequestError => Some APIError
  | InvalidParameterError => Some APIError
  | MissingRequiredParameterError => Some APIError
  | WrongTypeParameterError => Some APIError
  | WrongValueParameterError => Some APIError
  | OnlyDevelopmentFileError => Some APIError
  | NotValidExtensionError => Some APIError
  | LimitUploadSizeError => Some APIError
  | EmptyFileError => Some APIError
  | WrongOutputFormatStructureError => Some APIError
  | InvalidOutputFormatError => Some APIError
  | WrongInputFormatStructureError => Some APIError
  | InvalidInputFormatError => Some APIError
  | NoConverterInputToOutputError => Some APIError
  | NotMatchExtensionAndInputError => Some APIError
  | TooManyRequestsError => Some APIError
  | FreeAppLimitedError => Some APIError
  | DisabledForFreeAppError => Some APIError
  | WrongFormatStructureError => Some APIError
  | InvalidFormatError => Some APIError
  | FailedConvertError => Some APIError
  | HTTPResponseError => Some APIResponseError
  | APITaskError => Some APIException
  | EntityStatusNotRunningError => Some APITaskError
  | OutputWriteError => Some APIException
  | APIWarning => Some Error
  end.

Definition class_eqb (a b : class) : bool :=
  if (ltac:(decide equality) : {a = b} + {a <> b}) then true else false.

(** The prototype chain is walked upwards; the deepest chain has five
    classes. *)
Fixpoint inherits (depth : nat) (c target : class) : bool :=
  class_eqb c target ||
  match depth with
  | O => false
  | S d =>
      match extends c with
      | Some p => inherits d p target
      | None => false
      end
  end.

(** A thrown error object: its class and its [message]. *)
Record exception : Type := mkException {
  cls : class;
  message : string
}.

(** [error instanceof target] *)
Definition instanceof (e : exception) (target : class) : bool :=
  inherits 5 (cls e) target.

End Exceptions.

(* ================================================================== *)
(** * utils/exceptionHandler.ts *)

Module ExceptionHandler.
Import Js Exceptions.
Local Open Scope js_scope.

Definition ERROR_CODE_MAP : list (string * class) :=
  [
    ("INTERNAL_SERVER_ERROR", InternalServerError);
    ("NOT_FOUND", NotFoundError);
    ("POST_METHOD_ALLOWED", PostMethodAllowedError);
    ("MISSING_AUTHORIZATION_HEADER", MissingAuthorizationHeaderError);
    ("INVALID_AUTHORIZATION_HEADER", InvalidAuthorizationHeaderError);
    ("INVALID_FIELD", InvalidFieldError);
    ("MISSING_REQUIRED_FIELD", MissingRequiredFieldError);
    ("WRONG_TYPE_FIELD", WrongTypeFieldError);
    ("INVALID_DATA_KEY", InvalidDataKeyError);
    ("MISSING_REQUIRED_DATA_KEY", MissingRequiredDataKeyError);
    ("WRONG_TYPE_DATA_KEY", WrongTypeDataKeyError);
    ("WRONG_VALUE_DATA_KEY", WrongValueDataKeyError);
    ("INVALID_CREDENTIAL", InvalidCredentialError);
    ("FREE_PLAN_DISALLOWED", FreePlanDisallwedError);
    ("INSUFFICIENT_VCREDITS", InsufficentVCreditsError);
    ("INVALID_CALLBACK", InvalidCallbackError);
    ("UNVERIFIED_DOMAIN_CALLBACK", UnverifiedDomainCallbackError);
    ("NO_CONNECTOR_DEPENDENT_TASK", NoConnectorDependentTaskError);
    ("NOT_READY_DEPENDENT_TASK", NotReadyDependentTaskError);
    ("MISMATCH_VERSION_DEPENDENT_TASK", MismatchVersionDependentTaskError);
    ("MISMATCH_DEPENDENT_TASK", MismatchDependentTaskError);
    ("FILE_NOT_EXISTS", FileNotExistsError);
    ("DOWNLOAD_EXPIRED", DownloadExpiredError);
    ("ONLY_DEVELOPMENT_REQUEST", OnlyDevelopmentRequestError);
    ("INVALID_PARAMETER", InvalidParameterError);
    ("MISSING_REQUIRED_PARAMETER", MissingRequiredParameterError);
    ("WRONG_TYPE_PARAMETER", WrongTypeParameterError);
    ("WRONG_VALUE_PARAMETER", WrongValueParameterError);
    ("ONLY_DEVELOPMENT_FILE", OnlyDevelopmentFileError);
    ("NOT_VALID_EXTENSION", NotValidExtensionError);
    ("LIMIT_UPLOAD_SIZE", LimitUploadSizeError);
    ("EMPTY_FILE", EmptyFileError);
    ("WRONG_OUTPUT_FORMAT_STRUCTURE", WrongOutputFormatStructureError);
    ("INVALID_OUTPUT_FORMAT", InvalidOutputFormatError);
    ("WRONG_INPUT_FORMAT_STRUCTURE", WrongInputFormatStructureError);
    ("INVALID_INPUT_FORMAT", InvalidInputFormatError);
    ("NO_CONVERTER_INPUT_TO_OUTPUT", NoConverterInputToOutputError);
    ("NOT_MATCH_EXTENSION_AND_INPUT", NotMatchExtensionAndInputError);
    ("TOO_MANY_REQUESTS", TooManyRequestsError);
    ("FREE_APP_LIMITED", FreeAppLimitedError);
    ("DISABLED_FOR_FREE_APP", DisabledForFreeAppError);
    ("WRONG_FORMAT_STRUCTURE", WrongFormatStructureError);
    ("INVALID_FORMAT", InvalidFormatError);
    ("FAILED_CONVERT", FailedConvertError)
  ].

(** [ERROR_CODE_MAP[code]], read among the table's own keys; the names
    every object inherits ([constructor], [toString], ...) are left out. *)
Fixpoint lookupClass (code : string) (table : list (string * class))
  : option class :=
  match table with
  | [] => None
  | (k, c) :: rest => if String.eqb k code then Some c else lookupClass code rest
  end.

(** The classifier's own reads never throw; should one, it would surface as
    a [TypeError]. *)
Definition liftTypeError {A} (c : completion type_error A)
  : completion exception A :=
  match c with
  | Ok a => Ok a
  | Throw Js.TypeError => Throw (mkException Exceptions.TypeError "")
  end.

(** [raiseForResponse(response)]: throws the mapped class when the wrapper
    reports an error; otherwise returns the warnings handed to
    [console.warn] (none when [hasWarning] is false). *)
Definition raiseForResponse (response : value)
  : completion exception (list value) :=
  err <- liftTypeError (ErrorWrapper.hasError response) ;;
  if err then
    code <- liftTypeError (ErrorWrapper.getErrorCode response) ;;
    message <- liftTypeError (ErrorWrapper.getErrorMessage response) ;;
    let ExceptionClass :=
      match lookupClass (to_string code) ERROR_CODE_MAP with
      | Some c => c
      | None => APIException
      end in
    Throw (mkException ExceptionClass
             ("[" ++ to_string code ++ "] " ++ to_string message))
  else
    warn <- liftTypeError (ErrorWrapper.hasWarning response) ;;
    if warn then liftTypeError (ErrorWrapper.getWarnings response)
    else Ok [].

End ExceptionHandler.

(* ================================================================== *)
(** * api/interface.ts : [Interface] *)

Module Interface.
Import Js Exceptions.
Local Open Scope js_scope.

(** The values [Config.get('connectionSettings', ...)] resolves to. *)
Record connectionSettings : Type := mkSettings {
  retries : Z;
  defaultTimeout : Z;
  longTimeout : Z
}.

(** config/settings.ts, [DEFAULT_CONFIG.connectionSettings]. *)
Definition DEFAULT_CONFIG : connectionSettings :=
  {| retries := 5; defaultTimeout := 30 * 1000; longTimeout := 300 * 1000 |}.

(** [hay.includes(needle)] on strings. *)
Fixpoint includes (needle hay : string) : bool :=
  String.prefix needle hay ||
  match hay with
  | EmptyString => false
  | String _ rest => includes needle rest
  end.

(** [if (!endpoint.startsWith('/')) endpoint = `/${endpoint}`] *)
Definition normalizeEndpoint (endpoint : string) : string :=
  if String.prefix "/" endpoint then endpoint else "/" ++ endpoint.

(** [['/upload/file', '/download/url/get'].includes(endpoint)] *)
Definition isLongEndpoint (endpoint : string) : bool :=
  existsb (String.eqb endpoint) ["/upload/file"; "/download/url/get"].

(** The deadline computed by [request]:
    [timeout ?? [...].includes(endpoint) ? this.longTimeout : this.defaultTimeout].
    The conditional operator binds more loosely than [??], so the
    expression is [(timeout ?? includes) ? long : default]. *)
Definition timeoutMs (cfg : connectionSettings) (endpoint : string)
    (timeout : value) : Z :=
  let endpoint := normalizeEndpoint endpoint in
  if truthy (nullish timeout (VBool (isLongEndpoint endpoint)))
  then longTimeout cfg
  else defaultTimeout cfg.

(** What [sendRequest] looks at in a fetch [Response]: the Content-Type
    header and what [response.json()] settles to. *)
Record Response : Type := mkResponse {
  contentType : option string;
  json : completion exception value
}.

(** [sendRequest] resolves to the decoded JSON or to the raw response. *)
Inductive payload : Type :=
| Decoded (jsonResponse : value)
| Raw (response : Response).

(** Observable steps of [sendRequest]: a physical request with its abort
    deadline, and a backoff sleep, both in milliseconds. *)
Inductive event : Type :=
| Request (attempt : Z) (deadline : Z)
| Backoff (ms : Z).

Section SendRequest.

Variable cfg : connectionSettings.
(** The network: what the [attempt]-th [fetch] settles to. *)
Variable fetch : Z -> completion exception Response.
Variable path : string.
Variable timeout : value.

(** The body of the [try] block. *)
Definition tryOnce (attempt : Z) : completion exception payload :=
  response <- fetch attempt ;;
  let contentType :=
    match contentType response with
    | Some c => c
    | None => ""
    end in
  if includes "application/json" contentType then
    jsonResponse <- json response ;;
    _ <- ExceptionHandler.raiseForResponse jsonResponse ;;
    Ok (Decoded jsonResponse)
  else Ok (Raw response).

(** [for (let attempt = 1; attempt <= retries; attempt++)]: [remaining]
    counts the iterations the loop condition still admits. *)
Fixpoint attempts (remaining : nat) (attempt : Z) (trace : list event)
  : list event * completion exception payload :=
  match remaining with
  | O =>
      (trace,
       Throw (mkException NetworkConnectionError
                "Request failed without exception."))
  | S remaining' =>
      let trace := (trace ++ [Request attempt (timeoutMs cfg path timeout)])%list in
      match tryOnce attempt with
      | Ok result => (trace, Ok result)
      | Throw error =>
          if instanceof error APIError then (trace, Throw error)
          else if instanceof error SyntaxError then
            (trace, Throw (mkException InvalidJSONResponseError (message error)))
          else if attempt <? retries cfg then
            attempts remaining' (attempt + 1)
              (trace ++ [Backoff (2 ^ attempt * 1000)])%list
          else
            (trace,
             Throw (mkException NetworkConnectionError
                      ("All " ++ string_of_Z (retries cfg)
                       ++ " retries failed! Error: " ++ message error)))
      end
  end.

Definition sendRequest : list event * completion exception payload :=
  attempts (Z.to_nat (retries cfg)) 1 [].

End SendRequest.

(** The backoff sleeps of a run, in order. *)
Definition backoffs (trace : list event) : list Z :=
  flat_map (fun e => match e with Backoff ms => [ms] | Request _ _ => [] end) trace.

(** The number of physical requests of a run. *)
Definition requests (trace : list event) : nat :=
  List.length (filter (fun e => match e with Request _ _ => true | Backoff _ => false end) trace).

(** A transport failure at [attempt]: the physical call rejects with
    [cause], an error that is neither an [APIError] nor a [SyntaxError]
    (a network error, an aborted call). *)
Definition transportFails (fetch : Z -> completion exception Response)
    (attempt : Z) (cause : exception) : Prop :=
  fetch attempt = Throw cause
  /\ instanceof cause APIError = false
  /\ instanceof cause SyntaxError = false.

(** A successful attempt: the response is not JSON and is handed back raw,
    or it decodes to a JSON document in which the classifier finds no
    error. *)
Definition succeeds (fetch : Z -> completion exception Response)
    (attempt : Z) (result : payload) : Prop :=
  exists response,
    fetch attempt = Ok response
    /\ let type := match contentType response with
                   | Some c => c
                   | None => ""
                   end in
       (includes "application/json" type = false /\ result = Raw response)
       \/ (includes "application/json" type = true
           /\ exists body warnings,
               json response = Ok body
               /\ ExceptionHandler.raiseForResponse body = Ok warnings
               /\ result = Decoded body).

End Interface.

(* ================================================================== *)
(** * utils/streamChunker.ts : [StreamChunker] *)

Module StreamChunker.

Definition bytes : Type := list Byte.byte.

(** Relative index of [subarray]/[slice]: a negative index counts from the
    end, and the result is clamped to [0 .. len]. *)
Definition relativeIndex (len i : Z) : Z :=
  if i <? 0 then Z.max (len + i) 0 else Z.min i len.

(** [buffer.subarray(begin, end)]; [end] defaults to the length. *)
Definition subarray (buffer : bytes) (begin : Z) (end_ : option Z) : bytes :=
  let len := Z.of_nat (List.length buffer) in
  let from := relativeIndex len begin in
  let to := match end_ with
            | Some e => relativeIndex len e
            | None => len
            end in
  firstn (Z.to_nat (to - from)) (skipn (Z.to_nat from) buffer).

(** [Uint8Array.prototype.slice] copies where [subarray] shares, with the
    same index arithmetic; nothing here writes to a buffer afterwards. *)
Definition slice (buffer : bytes) (begin : Z) (end_ : option Z) : bytes :=
  subarray buffer begin end_.

(** A text chunk is carried as its UTF-8 bytes, so [Buffer.from(chunk)] and
    [new TextEncoder().encode(value)] read them off. *)
Definition utf8 (text : string) : bytes := list_byte_of_string text.

(** What a Node.js readable yields. *)
Inductive nodeChunk : Type :=
| NodeText (text : string)
| NodeBuffer (data : bytes).

(** What a browser reader's [read()] delivers in [value]. *)
Inductive browserValue : Type :=
| BrowserText (text : string)
| BrowserUint8Array (data : bytes)
| BrowserArrayBuffer (data : bytes).

(** A finite source stream: the constructor records whether it has a
    [getReader] method. *)
Inductive stream : Type :=
| NodeReadable (chunks : list nodeChunk)
| BrowserReadable (values : list browserValue).

Definition isNodeReadable (s : stream) : bool :=
  match s with
  | NodeReadable _ => true
  | BrowserReadable _ => false
  end.

(** The destination: a writable ([write] is a function) with what was
    written to it so far, or an array with its elements. *)
Inductive collector : Type :=
| WritableStream (written : list bytes)
| ChunkArray (items : list bytes).

Definition isWritable (c : collector) : bool :=
  match c with
  | WritableStream _ => true
  | ChunkArray _ => false
  end.

Definition emit (c : collector) (data : bytes) : collector :=
  match c with
  | WritableStream written => WritableStream (written ++ [data])
  | ChunkArray items => ChunkArray (items ++ [data])
  end.

Definition received (c : collector) : list bytes :=
  match c with
  | WritableStream written => written
  | ChunkArray items => items
  end.

(** [while (buffer.length >= this.chunkSize) { emit(subarray(0, size));
    buffer = buffer.subarray(size) }].  [None]: the loop is still running
    after [fuel] iterations. *)
Fixpoint sliceLoopNode (fuel : nat) (chunkSize : Z) (buffer : bytes)
    (c : collector) : option (bytes * collector) :=
  match fuel with
  | O => None
  | S fuel' =>
      if Z.of_nat (List.length buffer) >=? chunkSize then
        let slice := subarray buffer 0 (Some chunkSize) in
        sliceLoopNode fuel' chunkSize (subarray buffer chunkSize None)
          (emit c slice)
      else Some (buffer, c)
  end.

(** [for await (const chunk of this.stream)] *)
Fixpoint forAwaitNode (fuel : nat) (chunkSize : Z) (chunks : list nodeChunk)
    (buffer : bytes) (c : collector) : option (bytes * collector) :=
  match chunks with
  | [] => Some (buffer, c)
  | chunk :: rest =>
      let incoming := match chunk with
                      | NodeText text => utf8 text
                      | NodeBuffer data => data
                      end in
      let buffer := (buffer ++ incoming)%list in
      match sliceLoopNode fuel chunkSize buffer c with
      | None => None
      | Some (buffer, c) => forAwaitNode fuel chunkSize rest buffer c
      end
  end.

Definition processNodeStream (fuel : nat) (chunkSize : Z)
    (chunks : list nodeChunk) (c : collector) : option collector :=
  match forAwaitNode fuel chunkSize chunks [] c with
  | None => None
  | Some (buffer, c) =>
      Some (if (0 <? List.length buffer)%nat then emit c buffer else c)
  end.

(** The same loop in [processBrowserStream], on [slice]. *)
Fixpoint sliceLoopBrowser (fuel : nat) (chunkSize : Z) (buffer : bytes)
    (c : collector) : option (bytes * collector) :=
  match fuel with
  | O => None
  | S fuel' =>
      if Z.of_nat (List.length buffer) >=? chunkSize then
        let slice_ := slice buffer 0 (Some chunkSize) in
        sliceLoopBrowser fuel' chunkSize (slice buffer chunkSize None)
          (emit c slice_)
      else Some (buffer, c)
  end.

(** [while (true) { const {done, value} = await reader.read(); if (done)
    break; ... }]: the reader delivers the values in order, then [done]. *)
Fixpoint readLoopBrowser (fuel : nat) (chunkSize : Z)
    (values : list browserValue) (buffer : bytes) (c : collector)
  : option (bytes * collector) :=
  match values with
  | [] => Some (buffer, c)
  | value :: rest =>
      let incoming := match value with
                      | BrowserText text => utf8 text
                      | BrowserUint8Array data => data
                      | BrowserArrayBuffer data => data
                      end in
      let merged := (buffer ++ incoming)%list in
      match sliceLoopBrowser fuel chunkSize merged c with
      | None => None
      | Some (buffer, c) => readLoopBrowser fuel chunkSize rest buffer c
      end
  end.

Definition processBrowserStream (fuel : nat) (chunkSize : Z)
    (values : list browserValue) (c : collector) : option collector :=
  match readLoopBrowser fuel chunkSize values [] c with
  | None => None
  | Some (buffer, c) =>
      Some (if (0 <? List.length buffer)%nat then emit c buffer else c)
  end.

(** [process()]: dispatches on the stream's shape and returns the
    collector.  [fuel] bounds the iterations of each run of the slicing
    loop; [None] means a run did not finish within it. *)
Definition process (fuel : nat) (s : stream) (chunkSize : Z) (c : collector)
  : option collector :=
  match s with
  | NodeReadable chunks => processNodeStream fuel chunkSize chunks c
  | BrowserReadable values => processBrowserStream fuel chunkSize values c
  end.

(** All the bytes a source delivers, in order. *)
Definition sourceBytes (s : stream) : bytes :=
  match s with
  | NodeReadable chunks =>
      flat_map (fun chunk => match chunk with
                             | NodeText text => utf8 text
                             | NodeBuffer data => data
                             end) chunks
  | BrowserReadable values =>
      flat_map (fun value => match value with
                             | BrowserText text => utf8 text
                             | BrowserUint8Array data => data
                             | BrowserArrayBuffer data => data
                             end) values
  end.

(** The number of elements the source yields before it ends. *)
Definition sourceLength (s : stream) : nat :=
  match s with
  | NodeReadable chunks => List.length chunks
  | BrowserReadable values => List.length values
  end.

(** The collector after the chunks of [emitted] were emitted in order. *)
Definition emitAll (c : collector) (emitted : list bytes) : collector :=
  fold_left emit emitted c.

(** A browser value seen as the Node.js chunk with the same bytes. *)
Definition asNodeChunk (value : browserValue) : nodeChunk :=
  match value with
  | BrowserText text => NodeText text
  | BrowserUint8Array data => NodeBuffer data
  | BrowserArrayBuffer data => NodeBuffer data
  end.

(** ceil(n / d) for [d > 0]. *)
Definition ceilDiv (n d : Z) : Z := (n + d - 1) / d.

End StreamChunker.

(* ================================================================== *)
(** * utils/misc.ts : [canonicalizeFormat] *)

Module Misc.

(** A character is a UTF-16 code unit in the Latin-1 range
    U+0000..U+00FF, where [trim] and [toLowerCase] map code units to code
    units. *)

(** WhiteSpace and LineTerminator code points below U+0100: TAB, LF, VT,
    FF, CR, SPACE and NO-BREAK SPACE. *)
Definition isWhiteSpace (c : ascii) : bool :=
  let n := nat_of_ascii c in
  ((9 <=? n) && (n <=? 13) || (n =? 32) || (n =? 160))%nat.

(** Lower-case mapping below U+0100: A..Z, and U+00C0..U+00DE without the
    multiplication sign U+00D7, move up by 32. *)
Definition lowerChar (c : ascii) : ascii :=
  let n := nat_of_ascii c in
  if ((65 <=? n) && (n <=? 90)
      || (192 <=? n) && (n <=? 222) && negb (n =? 215))%nat
  then ascii_of_nat (n + 32)
  else c.

Fixpoint toLowerCase (s : string) : string :=
  match s with
  | EmptyString => EmptyString
  | String c rest => String (lowerChar c) (toLowerCase rest)
  end.

Fixpoint trimStart (s : string) : string :=
  match s with
  | EmptyString => EmptyString
  | String c rest => if isWhiteSpace c then trimStart rest else s
  end.

Fixpoint trimEnd (s : string) : string :=
  match s with
  | EmptyString => EmptyString
  | String c rest =>
      match trimEnd rest with
      | EmptyString => if isWhiteSpace c then EmptyString else String c EmptyString
      | kept => String c kept
      end
  end.

Definition trim (s : string) : string := trimStart (trimEnd s).

(** [s.slice(1)] *)
Definition slice1 (s : string) : string :=
  match s with
  | EmptyString => EmptyString
  | String _ rest => rest
  end.

(** [s || undefined], and the truthiness test of [!s]. *)
Definition nonEmpty (s : string) : option string :=
  match s with
  | EmptyString => None
  | _ => Some s
  end.

(** [canonicalizeFormat(formatName?)]; [None] is [undefined]. *)
Definition canonicalizeFormat (formatName : option string) : option string :=
  match formatName with
  | None => None
  | Some EmptyString => None
  | Some formatName =>
      let formatName := toLowerCase (trim formatName) in
      let formatName :=
        if String.prefix "." formatName then slice1 formatName
        else formatName in
      nonEmpty formatName
  end.

(** Whether a canonical form still begins with a dot or with white
    space, which a second pass would remove. *)
Definition startsWithDotOrSpace (formatName : option string) : bool :=
  match formatName with
  | Some (String c _) => isWhiteSpace c || Ascii.eqb c "."
  | _ => false
  end.

End Misc.

(* ================================================================== *)
(** * api/converter.ts : [Conversion.wait] *)

Module Conversion.
Import Js Exceptions.

(** config/settings.ts *)
Definition SLEEP_PATTERN : list value := [VNum 10; VNum 10; VNum 15].

(** How a run of [wait] stands once the scripted answers of [done()] are
    used up: resolved, rejected with the thrown error, or still inside the
    loop with its current [step], about to poll again. *)
Inductive waitState : Type :=
| Resolved
| Rejected (error : exception)
| Polling (step : nat).

(** The [while (!(await this.done()))] loop.  [polls] lists what the
    successive calls of [done()] settle to; [sleeps] collects the arguments
    given to [sleepFn], in milliseconds. *)
Fixpoint waitLoop (pollIntervals : list value)
    (polls : list (completion exception bool)) (step : nat) (sleeps : list Z)
  : list Z * waitState :=
  match polls with
  | [] => (sleeps, Polling step)
  | Throw error :: _ => (sleeps, Rejected error)
  | Ok true :: _ => (sleeps, Resolved)
  | Ok false :: rest =>
      let interval := nth step pollIntervals VUndefined in
      match interval with
      | VNum seconds =>
          let sleeps := (sleeps ++ [seconds * 1000])%list in
          let step :=
            if Z.of_nat step <? Z.of_nat (List.length pollIntervals) - 1
            then S step else step in
          waitLoop pollIntervals rest step sleeps
      | _ =>
          (sleeps,
           Rejected (mkException Error
                       ("pollIntervals[" ++ string_of_Z (Z.of_nat step)
                        ++ "] is not a valid number: " ++ to_string interval)))
      end
  end.

Definition wait (pollIntervals : list value)
    (polls : list (completion exception bool)) : list Z * waitState :=
  waitLoop pollIntervals polls 0 [].

(** The index [wait] reads at its [k]-th sleep when no element was
    rejected before: it grows by one per poll up to the last index. *)
Definition stepAt (pollIntervals : list value) (k : nat) : nat :=
  Nat.min k (List.length pollIntervals - 1).

Definition isNumber (v : value) : bool :=
  match v with
  | VNum _ => true
  | _ => false
  end.

Definition seconds (v : value) : Z :=
  match v with
  | VNum n => n
  | _ => 0
  end.

(** The argument of the [k]-th call of [sleepFn], and those of the first
    [n] calls. *)
Definition sleepAt (pollIntervals : list value) (k : nat) : Z :=
  seconds (nth (stepAt pollIntervals k) pollIntervals VUndefined) * 1000.

Definition sleepsFor (pollIntervals : list value) (n : nat) : list Z :=
  map (sleepAt pollIntervals) (seq 0 n).

(** The error [wait] throws for the element read at [step]. *)
Definition invalidInterval (pollIntervals : list value) (step : nat)
  : exception :=
  mkException Error
    ("pollIntervals[" ++ string_of_Z (Z.of_nat step)
     ++ "] is not a valid number: "
     ++ to_string (nth step pollIntervals VUndefined)).

End Conversion.

(* ================================================================== *)
(** * The retry schedule of [sendRequest] *)

Module RetrySchedule.
Import Interface.

(** The steps of [k] failed attempts in a row, the first numbered
    [attempt]: each is a request followed by its backoff sleep of
    [2 ** attempt] seconds. *)
Fixpoint failedPrefix (deadline attempt : Z) (k : nat) : list event :=
  match k with
  | O => []
  | S k' =>
      Request attempt deadline :: Backoff (2 ^ attempt * 1000)
        :: failedPrefix deadline (attempt + 1) k'
  end.

(** The steps of a run that sends [m] requests: [m - 1] failed attempts
    and the request that decides the run. *)
Definition schedule (deadline : Z) (m : nat) : list event :=
  match m with
  | O => []
  | S k => failedPrefix deadline 1 k ++ [Request (1 + Z.of_nat k) deadline]
  end.

End RetrySchedule.

(* ================================================================== *)
(** * api/interface.ts : the buffering of a file field in [request] *)

Module FileField.
Import Js StreamChunker.

Inductive range_error : Type := RangeError.

(** [target.set(source, offset)] on typed arrays: [source] is copied over
    [target] from [offset] on; it must fit. *)
Definition set (target source : bytes) (offset : nat)
  : completion range_error bytes :=
  if (offset + List.length source <=? List.length target)%nat
  then Ok (firstn offset target ++ source
             ++ skipn (offset + List.length source) target)%list
  else Throw RangeError.

(** [chunksCollector.reduce((sum, arr) => sum + arr.length, 0)] *)
Definition totalLength (chunksCollector : list bytes) : nat :=
  fold_left (fun sum arr => (sum + List.length arr)%nat) chunksCollector 0%nat.

(** [for (const chunk of chunksCollector) { finalBuffer.set(chunk, offset);
    offset += chunk.length }] *)
Fixpoint copyChunks (chunksCollector : list bytes) (finalBuffer : bytes)
    (offset : nat) : completion range_error bytes :=
  match chunksCollector with
  | [] => Ok finalBuffer
  | chunk :: rest =>
      bind (set finalBuffer chunk offset)
        (fun finalBuffer =>
           copyChunks rest finalBuffer (offset + List.length chunk))
  end.

(** [new Uint8Array(totalLength)] filled by the loop. *)
Definition mergeChunks (chunksCollector : list bytes)
  : completion range_error bytes :=
  copyChunks chunksCollector
    (repeat Byte.x00 (totalLength chunksCollector)) 0.

(** What [request] puts in the Blob of a file field: the stream is
    chunked into a fresh array, and the chunks are merged.  [None]: the
    chunker did not finish within [fuel]. *)
Definition bufferFile (fuel : nat) (s : stream) (chunkSize : Z)
  : option (completion range_error bytes) :=
  match process fuel s chunkSize (ChunkArray []) with
  | None => None
  | Some chunksCollector => Some (mergeChunks (received chunksCollector))
  end.

End FileField.

(* ================================================================== *)
(** * api/credential.ts : [Credential] *)

Module Credential.
Import Js Exceptions.

Record credential : Type := mkCredential {
  _app : string;
  _token : string
}.

(** [new Credential(app, token)]: each argument must be a string that is
    not empty once trimmed; the application ID is checked first. *)
Definition new (app token : value) : completion exception credential :=
  match app with
  | VStr a =>
      match Misc.trim a with
      | EmptyString =>
          Throw (mkException Error "Application ID must be a non-empty string")
      | _ =>
          match token with
          | VStr t =>
              match Misc.trim t with
              | EmptyString =>
                  Throw (mkException Error
                           "Security token must be a non-empty string")
              | _ => Ok (mkCredential a t)
              end
          | _ =>
              Throw (mkException Error
                       "Security token must be a non-empty string")
          end
      end
  | _ => Throw (mkException Error "Application ID must be a non-empty string")
  end.

(** [Boolean(this._app && this._token)] *)
Definition isValid (c : credential) : bool :=
  negb (String.eqb (_app c) "") && negb (String.eqb (_token c) "").

End Credential.

(* ================================================================== *)
(** * config/config.ts : [Config] *)

Module Config.
Import Js.

(** A configuration object: its own keys in insertion order, each once. *)
Definition section : Type := list (string * value).
Definition store : Type := list (string * section).

(** [key in obj] together with [obj[key]], among the object's own keys:
    as the code answers for every name that objects do not inherit
    ([ObjectPrototype.inheritedNames]). *)
Fixpoint find {A : Type} (key : string) (obj : list (string * A)) : option A :=
  match obj with
  | [] => None
  | (k, x) :: rest => if String.eqb k key then Some x else find key rest
  end.

(** [obj[key] = x], which creates or rewrites an own key for every name
    that objects do not inherit. *)
Fixpoint assign {A : Type} (key : string) (x : A) (obj : list (string * A))
  : list (string * A) :=
  match obj with
  | [] => [(key, x)]
  | (k, y) :: rest =>
      if String.eqb k key then (k, x) :: rest else (k, y) :: assign key x rest
  end.

(** config/settings.ts *)
Definition DEFAULT_CONFIG : store :=
  [ ("api",
     [("app", VStr "free");
      ("token", VStr "FREE-TOKEN");
      ("endpoint", VStr "https://api.vertopal.com")]);
    ("connectionSettings",
     [("retries", VNum 5);
      ("defaultTimeout", VNum (30 * 1000));
      ("longTimeout", VNum (300 * 1000));
      ("streamChunkSize", VNum 4096)]) ].

(** [Config.get(section, key, fallback)]: overrides, then defaults, then
    the fallback. *)
Definition get (_overrides : store) (section key : string) (fallback : value)
  : value :=
  match find section _overrides with
  | Some values =>
      match find key values with
      | Some x => x
      | None =>
          match find section DEFAULT_CONFIG with
          | Some defaults =>
              match find key defaults with
              | Some x => x
              | None => fallback
              end
          | None => fallback
          end
      end
  | None =>
      match find section DEFAULT_CONFIG with
      | Some defaults =>
          match find key defaults with
          | Some x => x
          | None => fallback
          end
      | None => fallback
      end
  end.

(** [Object.assign(target, source)] *)
Definition objectAssign (target source : section) : section :=
  fold_left (fun t entry => assign (fst entry) (snd entry) t) source target.

(** [Config.update(overrides)]: every section of [overrides] is merged
    into the section of the same name, created empty when missing. *)
Definition update (_overrides overrides : store) : store :=
  fold_left
    (fun current entry =>
       let target := match find (fst entry) current with
                     | Some values => values
                     | None => []
                     end in
       assign (fst entry) (objectAssign target (snd entry)) current)
    overrides _overrides.

Definition clear_overrides (_overrides : store) : store := [].

(** An object literal has each key once. *)
Definition wellFormed (overrides : store) : Prop :=
  NoDup (map fst overrides)
  /\ Forall (fun entry => NoDup (map fst (snd entry))) overrides.

(** [obj[section]?.[key]] among own keys. *)
Definition find2 (obj : store) (section key : string) : option value :=
  match find section obj with
  | Some values => find key values
  | None => None
  end.

End Config.

(* ================================================================== *)
(** * api/converter.ts : the state of a [Conversion] *)

Module Workflow.
Import Js Exceptions.

(** The mutable fields of a [Conversion]; [undefined] until set. *)
Record conversion : Type := mkConversion {
  convertConnector : value;
  convertStatus : value;
  credits : value
}.

Definition created : conversion := mkConversion VUndefined VUndefined VUndefined.

(** [v.key], which throws a [TypeError] on [null] and [undefined]. *)
Definition read (v : value) (key : string) : completion exception value :=
  ExceptionHandler.liftTypeError (get v key).

(** [v === 'literal'] *)
Definition strictEquals (v : value) (literal : string) : bool :=
  match v with
  | VStr s => String.eqb s literal
  | _ => false
  end.

(** What [getConvertTaskStatus] returns. *)
Record taskStatus : Type := mkTaskStatus {
  task : value;
  creditsField : value;
  convert : value
}.

(** [getConvertTaskStatus()], given what [client.taskResponse] settles
    to; the fields are written as the reads succeed, so a later failing
    read leaves the earlier writes in place. *)
Definition getConvertTaskStatus (this : conversion)
    (taskResponse : completion exception value)
  : conversion * completion exception taskStatus :=
  match taskResponse with
  | Throw e => (this, Throw e)
  | Ok response =>
      match bind (read response "result") (fun r => read r "output") with
      | Throw e => (this, Throw e)
      | Ok resultOutput =>
          match read resultOutput "result" with
          | Throw e => (this, Throw e)
          | Ok inner =>
              let written :=
                if truthy inner then
                  match bind (read inner "output") (fun o => read o "status") with
                  | Throw e => (this, Throw e)
                  | Ok status =>
                      let this :=
                        mkConversion (convertConnector this) status (credits this) in
                      match bind (read resultOutput "entity")
                              (fun entity => read entity "vcredits") with
                      | Throw e => (this, Throw e)
                      | Ok vcredits =>
                          (mkConversion (convertConnector this)
                             (convertStatus this) vcredits, Ok tt)
                      end
                  end
                else
                  (mkConversion (convertConnector this) VUndefined (credits this),
                   Ok tt) in
              match written with
              | (this, Throw e) => (this, Throw e)
              | (this, Ok _) =>
                  match bind (read resultOutput "entity")
                          (fun entity => read entity "status") with
                  | Throw e => (this, Throw e)
                  | Ok status =>
                      (this,
                       Ok (mkTaskStatus status (credits this) (convertStatus this)))
                  end
              end
          end
      end
  end.

(** [done()] *)
Definition done (this : conversion) (taskResponse : completion exception value)
  : conversion * completion exception bool :=
  match getConvertTaskStatus this taskResponse with
  | (this, Throw e) => (this, Throw e)
  | (this, Ok status) => (this, Ok (strictEquals (task status) "completed"))
  end.

(** [successful()] and [creditsUsed] *)
Definition successful (this : conversion) : bool :=
  strictEquals (convertStatus this) "successful".

Definition creditsUsed (this : conversion) : value := credits this.

(** The client calls [startConversion] makes. *)
Inductive call : Type :=
| UploadFile
| ConvertFile (connector : value).

(** [startConversion()], given what [client.uploadFile] settles to and
    what [client.convertFile] settles to for a connector. *)
Definition startConversion (this : conversion)
    (uploadFile : completion exception value)
    (convertFile : value -> completion exception value)
  : list call * conversion * completion exception unit :=
  match uploadFile with
  | Throw e => ([UploadFile], this, Throw e)
  | Ok uploadResp =>
      match bind (bind (read uploadResp "result") (fun r => read r "output"))
              (fun output => read output "connector") with
      | Throw e => ([UploadFile], this, Throw e)
      | Ok uploadConnector =>
          let calls := [UploadFile; ConvertFile uploadConnector] in
          match convertFile uploadConnector with
          | Throw e => (calls, this, Throw e)
          | Ok convertResp =>
              match bind (read convertResp "entity")
                      (fun entity => read entity "status") with
              | Throw e => (calls, this, Throw e)
              | Ok status =>
                  if negb (strictEquals status "running") then
                    (calls, this,
                     Throw (mkException EntityStatusNotRunningError ""))
                  else
                    match bind (read convertResp "entity")
                            (fun entity => read entity "id") with
                    | Throw e => (calls, this, Throw e)
                    | Ok id =>
                        (calls,
                         mkConversion id (convertStatus this) (credits this),
                         Ok tt)
                    end
              end
          end
      end
  end.

(** [wait()] on the conversion itself: [taskResponses] lists what the
    successive calls of [client.taskResponse] settle to. *)
Fixpoint waitLoop (pollIntervals : list value)
    (taskResponses : list (completion exception value)) (step : nat)
    (sleeps : list Z) (this : conversion)
  : list Z * Conversion.waitState * conversion :=
  match taskResponses with
  | [] => (sleeps, Conversion.Polling step, this)
  | taskResponse :: rest =>
      match done this taskResponse with
      | (this, Throw error) => (sleeps, Conversion.Rejected error, this)
      | (this, Ok true) => (sleeps, Conversion.Resolved, this)
      | (this, Ok false) =>
          let interval := nth step pollIntervals VUndefined in
          match interval with
          | VNum seconds =>
              let sleeps := (sleeps ++ [seconds * 1000])%list in
              let step :=
                if Z.of_nat step <? Z.of_nat (List.length pollIntervals) - 1
                then S step else step in
              waitLoop pollIntervals rest step sleeps this
          | _ =>
              (sleeps,
               Conversion.Rejected
                 (Conversion.invalidInterval pollIntervals step),
               this)
          end
      end
  end.

Definition wait (this : conversion) (pollIntervals : list value)
    (taskResponses : list (completion exception value))
  : list Z * Conversion.waitState * conversion :=
  waitLoop pollIntervals taskResponses 0 [] this.

(** A task response with the given task status, inner conversion result
    and credits, in the shape the service sends. *)
Definition statusEnvelope (taskStatus inner vcredits : value) : value :=
  VObj [("result",
         VObj [("output",
                VObj [("result", inner);
                      ("entity", VObj [("status", taskStatus);
                                       ("vcredits", vcredits)])])])].

(** The inner result of a finished conversion. *)
Definition conversionResult (status : value) : value :=
  VObj [("output", VObj [("status", status)])].

End Workflow.

(* ================================================================== *)
(** * Property chains *)

Module Chain.
Import Js Exceptions.

(** [v.k1.k2...kn]: each read throws a [TypeError] on [null] and
    [undefined]. *)
Fixpoint readPath (v : value) (path : list string)
  : completion exception value :=
  match path with
  | [] => Ok v
  | key :: rest => bind (Workflow.read v key) (fun x => readPath x rest)
  end.

End Chain.

(* ================================================================== *)
(** * api/interface.ts : [parseFieldParameters] *)

Module Fields.
Import Js.

(** The descriptor [uploadFile] passes for a file. *)
Record fileField : Type := mkFileField {
  stream : StreamChunker.stream;
  filename : string;
  contentType : string;
  chunkSize : Z
}.

(** A field value: a string, or anything else (the callers pass file
    descriptors). *)
Inductive fieldValue : Type :=
| Text (text : string)
| File (file : fileField).

(** [hay.indexOf(needle)] *)
Fixpoint indexOf (needle hay : string) : option nat :=
  if String.prefix needle hay then Some 0%nat
  else match hay with
       | EmptyString => None
       | String _ rest => option_map S (indexOf needle rest)
       end.

(** The replacement text of [String.prototype.replace] for a string
    pattern: [$$], [$&], [$`] and [$'] are expanded; there are no capture
    groups, so any other [$] stands for itself. *)
Fixpoint substitute (template before matched after : string) : string :=
  match template with
  | EmptyString => EmptyString
  | String c rest =>
      if Ascii.eqb c "$" then
        match rest with
        | String d rest' =>
            if Ascii.eqb d "$" then
              String "$" (substitute rest' before matched after)
            else if Ascii.eqb d "&" then
              matched ++ substitute rest' before matched after
            else if Ascii.eqb d "`" then
              before ++ substitute rest' before matched after
            else if Ascii.eqb d "'" then
              after ++ substitute rest' before matched after
            else String c (substitute rest before matched after)
        | EmptyString => String c EmptyString
        end
      else String c (substitute rest before matched after)
  end.

(** [text.replace(from, to)] with a string pattern: the first occurrence
    only. *)
Definition replace (text from to : string) : string :=
  match indexOf from text with
  | None => text
  | Some i =>
      let before := String.substring 0 i text in
      let after :=
        String.substring (i + String.length from)
          (String.length text - (i + String.length from)) text in
      before ++ substitute to before from after ++ after
  end.

Definition nonEmptyString (s : string) : bool :=
  match s with
  | EmptyString => false
  | _ => true
  end.

(** [applyReplace]: the loop returns at the first entry whose two strings
    are both non-empty. *)
Fixpoint applyEntries (entries : list (string * string)) (text : string)
  : string :=
  match entries with
  | [] => text
  | (from, to) :: rest =>
      if nonEmptyString from && nonEmptyString to then replace text from to
      else applyEntries rest text
  end.

Definition applyReplace (replace : option (list (string * string)))
    (text : string) : string :=
  match replace with
  | None => text
  | Some entries => applyEntries entries text
  end.

(** [Object.keys(obj).length ? obj : undefined] *)
Definition orUndefined {A : Type} (obj : list (string * A))
  : option (list (string * A)) :=
  match obj with
  | [] => None
  | _ => Some obj
  end.

(** The loop over [Object.entries(params)]. *)
Fixpoint split (params : list (string * fieldValue))
    (replace : option (list (string * string)))
    (data : list (string * string)) (file : list (string * fileField))
  : list (string * string) * list (string * fileField) :=
  match params with
  | [] => (data, file)
  | (key, val) :: rest =>
      match val with
      | Text text =>
          split rest replace (Config.assign key (applyReplace replace text) data) file
      | File f => split rest replace data (Config.assign key f file)
      end
  end.

Definition parseFieldParameters (params : option (list (string * fieldValue)))
    (replace : option (list (string * string)))
  : option (list (string * string)) * option (list (string * fileField)) :=
  match params with
  | None => (None, None)
  | Some entries =>
      let (data, file) := split entries replace [] [] in
      (orUndefined data, orUndefined file)
  end.

End Fields.

(* ================================================================== *)
(** * Names outside the own keys of an object *)

Module ObjectPrototype.

(** The property names every ordinary object inherits from
    [Object.prototype].  An object modelled by its own keys answers as the
    code does only for names outside this list. *)
Definition inheritedNames : list string :=
  [ "constructor"; "hasOwnProperty"; "isPrototypeOf"; "propertyIsEnumerable";
    "toLocaleString"; "toString"; "valueOf"; "__proto__";
    "__defineGetter__"; "__defineSetter__";
    "__lookupGetter__"; "__lookupSetter__" ].

Definition ownOnly (name : string) : bool :=
  negb (existsb (String.eqb name) inheritedNames).

(** A store all of whose section names and keys are outside the list. *)
Definition ownOnlyStore (st : Config.store) : Prop :=
  Forall (fun entry =>
            ownOnly (fst entry) = true
            /\ Forall (fun field => ownOnly (fst field) = true) (snd entry))
         st.

(** The keys that occur in the classifier's path tables: [error],
    [result], [output] and [warning].  No array, primitive or inherited
    member answers to them. *)
Definition pathKeys : list string :=
  List.concat (ErrorWrapper.errorPaths ++ ErrorWrapper.warningPaths).

End ObjectPrototype.

(* ================================================================== *)
(** * Properties of the error classifier *)

Section ErrorWrapperFacts.
Import Js ErrorWrapper.

Lemma getByPath_total (path : list string) :
  forall data, exists v, getByPath data path = Ok v.
Proof.
  induction path as [|key rest IH]; intros data; simpl.
  - now exists data.
  - destruct data as [| |b|n|s|items|fields]; simpl; try (now eexists).
    destruct (lookup key fields) eqn:Hl; simpl; solve [apply IH | now eexists].
Qed.

Lemma bearsCodeOrMessage_total (err : value) :
  exists hit, bearsCodeOrMessage err = Ok hit.
Proof.
  destruct err as [| |b|n|s|items|fields]; simpl; try (now eexists).
  unfold bearsCodeOrMessage; simpl.
  destruct (truthy (lookup "code" fields)); now eexists.
Qed.

(** A hit is an object that owns a truthy [code] or a truthy [message]. *)
Lemma bearsCodeOrMessage_true (err : value) :
  bearsCodeOrMessage err = Ok true ->
  exists fields,
    err = VObj fields /\
    (truthy (lookup "code" fields) = true
     \/ truthy (lookup "message" fields) = true).
Proof.
  destruct err as [| |b|n|s|items|fields]; simpl; try discriminate.
  unfold bearsCodeOrMessage; simpl.
  destruct (truthy (lookup "code" fields)) eqn:Hc; intros H.
  - exists fields; auto.
  - exists fields; split; [reflexivity|right].
    simpl in H. congruence.
Qed.

Lemma bearsCodeOrMessage_nonempty (err : value) :
  bearsCodeOrMessage err = Ok true -> isEmptyObject err = false.
Proof.
  intros H. destruct (bearsCodeOrMessage_true _ H) as (fields & -> & Ht).
  destruct fields; [|reflexivity].
  simpl in Ht. destruct Ht; discriminate.
Qed.

(** [some] and the first-hit loop agree on every list of paths. *)
Lemma somePath_firstAt (response : value) (paths : list (list string)) :
  exists b e,
    somePath response paths = Ok b /\
    firstAt response paths = Ok e /\
    (b = true <-> isEmptyObject e = false) /\
    (b = true -> bearsCodeOrMessage e = Ok true).
Proof.
  induction paths as [|path rest IH]; simpl.
  - exists false, (VObj []). repeat split; simpl; congruence.
  - destruct (getByPath_total path response) as [err ->]; simpl.
    destruct (bearsCodeOrMessage_total err) as [hit Hhit].
    rewrite Hhit; simpl. destruct hit.
    + exists true, err. repeat split; auto.
      intros _. now apply bearsCodeOrMessage_nonempty.
    + exact IH.
Qed.

End ErrorWrapperFacts.

(** C10. For every envelope, [hasError] and [getError] both return (they
    never throw), [hasError] is true exactly when [getError]'s object is not
    the empty object, a reported error object owns a truthy [code] or a
    truthy [message], and an object whose [code] and [message] are each the
    empty string or absent is not a hit. *)
Theorem C10_hasError_iff_getError_nonempty :
  forall response : Js.value,
    (exists b e,
        ErrorWrapper.hasError response = Js.Ok b /\
        ErrorWrapper.getError response = Js.Ok e /\
        (b = true <-> ErrorWrapper.isEmptyObject e = false) /\
        (b = true ->
         exists fields,
           e = Js.VObj fields /\
           (Js.truthy (Js.lookup "code" fields) = true
            \/ Js.truthy (Js.lookup "message" fields) = true)))
    /\
    (forall fields,
        (Js.lookup "code" fields = Js.VStr ""
         \/ Js.lookup "code" fields = Js.VUndefined) ->
        (Js.lookup "message" fields = Js.VStr ""
         \/ Js.lookup "message" fields = Js.VUndefined) ->
        ErrorWrapper.bearsCodeOrMessage (Js.VObj fields) = Js.Ok false).
Proof.
  intros response. split.
  - unfold ErrorWrapper.hasError, ErrorWrapper.getError.
    destruct (somePath_firstAt response ErrorWrapper.errorPaths)
      as (b & e & Hb & He & Hiff & Hbears).
    exists b, e. repeat split; try assumption; try apply Hiff.
    intros Ht. apply bearsCodeOrMessage_true. now apply Hbears.
  - intros fields Hc Hm. unfold ErrorWrapper.bearsCodeOrMessage; simpl.
    destruct Hc as [-> | ->], Hm as [-> | ->]; reflexivity.
Qed.

(** An envelope whose only error object has empty [code] and [message] is
    not an error, and [getError] answers the empty object. *)
Example hasError_empty_strings :
  let response :=
    Js.VObj [("error", Js.VObj [("code", Js.VStr ""); ("message", Js.VStr "")])] in
  ErrorWrapper.hasError response = Js.Ok false
  /\ ErrorWrapper.getError response = Js.Ok (Js.VObj []).
Proof. split; reflexivity. Qed.

(** C8 (as amended). When the root-level [error] path and the nested
    [result.error] path both resolve to objects bearing a truthy code or
    message, and the envelope root itself bears neither, [getError] returns
    the root-level [error] object. *)
Theorem C8_getError_prefers_root_error :
  forall (response e1 e2 : Js.value),
    ErrorWrapper.getByPath response ["error"] = Js.Ok e1 ->
    ErrorWrapper.bearsCodeOrMessage e1 = Js.Ok true ->
    ErrorWrapper.getByPath response ["result"; "error"] = Js.Ok e2 ->
    ErrorWrapper.bearsCodeOrMessage e2 = Js.Ok true ->
    ErrorWrapper.bearsCodeOrMessage response = Js.Ok false ->
    ErrorWrapper.getError response = Js.Ok e1.
Proof.
  intros response e1 e2 H1 Hb1 _ _ Hroot.
  unfold ErrorWrapper.getError, ErrorWrapper.errorPaths.
  cbn [ErrorWrapper.firstAt]. change (ErrorWrapper.getByPath response []) with
    (@Js.Ok Js.type_error _ response).
  cbn [Js.bind]. rewrite Hroot. cbn [Js.bind].
  rewrite H1. cbn [Js.bind]. rewrite Hb1. reflexivity.
Qed.

Lemma C8_getError_prefers_root_error_witness :
  let e1 := Js.VObj [("code", Js.VStr "INVALID_FIELD")] in
  let e2 := Js.VObj [("code", Js.VStr "NOT_FOUND")] in
  ErrorWrapper.getError
    (Js.VObj [("error", e1); ("result", Js.VObj [("error", e2)])])
  = Js.Ok e1.
Proof.
  intros e1 e2.
  apply (C8_getError_prefers_root_error
           (Js.VObj [("error", e1); ("result", Js.VObj [("error", e2)])])
           e1 e2);
    reflexivity.
Defined.

(** C8 as stated fails: the empty path comes first in [errorPaths], so an
    envelope that itself carries a [code] is returned whole, although its
    [error] and [result.error] members both bear a code. *)
Lemma C8_counterexample :
  let e1 := Js.VObj [("code", Js.VStr "INVALID_FIELD")] in
  let e2 := Js.VObj [("code", Js.VStr "NOT_FOUND")] in
  let response :=
    Js.VObj [("code", Js.VStr "FAILED_CONVERT");
             ("error", e1);
             ("result", Js.VObj [("error", e2)])] in
  ErrorWrapper.getByPath response ["error"] = Js.Ok e1
  /\ ErrorWrapper.bearsCodeOrMessage e1 = Js.Ok true
  /\ ErrorWrapper.getByPath response ["result"; "error"] = Js.Ok e2
  /\ ErrorWrapper.bearsCodeOrMessage e2 = Js.Ok true
  /\ ErrorWrapper.getError response = Js.Ok response
  /\ ErrorWrapper.getError response <> Js.Ok e1.
Proof.
  cbv zeta. repeat split; try reflexivity.
  vm_compute. discriminate.
Qed.

(* ================================================================== *)
(** * Properties of the transport layer *)

Section InterfaceFacts.
Import Js Exceptions Interface.

(** Without a [timeout] argument the endpoint decides. *)
Lemma timeoutMs_undefined (cfg : connectionSettings) (endpoint : string) :
  timeoutMs cfg endpoint VUndefined
  = if isLongEndpoint (normalizeEndpoint endpoint)
    then longTimeout cfg else defaultTimeout cfg.
Proof. reflexivity. Qed.

(** With a [timeout] argument its truthiness decides, for every
    endpoint: the argument itself is never the deadline. *)
Lemma timeoutMs_explicit (cfg : connectionSettings) (endpoint : string) (t : Z) :
  timeoutMs cfg endpoint (VNum t)
  = if t =? 0 then defaultTimeout cfg else longTimeout cfg.
Proof. unfold timeoutMs; simpl. now destruct (t =? 0). Qed.

(** Every class of the table descends from [APIError]. *)
Lemma ERROR_CODE_MAP_APIError (code : string) (c : class) :
  ExceptionHandler.lookupClass code ExceptionHandler.ERROR_CODE_MAP = Some c ->
  inherits 5 c APIError = true.
Proof.
  unfold ExceptionHandler.ERROR_CODE_MAP.
  cbn [ExceptionHandler.lookupClass].
  repeat match goal with
         | |- (if ?b then _ else _) = _ -> _ => destruct b
         end;
    intros H; try discriminate; injection H as <-; reflexivity.
Qed.

(** An error the [catch] recognises as [APIError] ends [sendRequest] at
    the attempt that met it, with no backoff. *)
Lemma attempts_APIError cfg fetch path timeout remaining attempt trace error :
  tryOnce fetch attempt = Throw error ->
  instanceof error APIError = true ->
  attempts cfg fetch path timeout (S remaining) attempt trace
  = ((trace ++ [Request attempt (timeoutMs cfg path timeout)])%list, Throw error).
Proof.
  intros Htry Hinst. cbn [attempts]. now rewrite Htry, Hinst.
Qed.

(** A transport failure with attempts left sleeps [2^attempt] seconds and
    tries again. *)
Lemma attempts_retry cfg fetch path timeout remaining attempt trace error :
  tryOnce fetch attempt = Throw error ->
  instanceof error APIError = false ->
  instanceof error SyntaxError = false ->
  attempt < retries cfg ->
  attempts cfg fetch path timeout (S remaining) attempt trace
  = attempts cfg fetch path timeout remaining (attempt + 1)
      ((trace ++ [Request attempt (timeoutMs cfg path timeout)])
         ++ [Backoff (2 ^ attempt * 1000)])%list.
Proof.
  intros Htry Ha Hs Hlt. cbn [attempts]. rewrite Htry, Ha, Hs.
  apply Z.ltb_lt in Hlt. now rewrite Hlt.
Qed.

(** A transport failure at the last attempt is terminal. *)
Lemma attempts_exhausted cfg fetch path timeout remaining attempt trace error :
  tryOnce fetch attempt = Throw error ->
  instanceof error APIError = false ->
  instanceof error SyntaxError = false ->
  retries cfg <= attempt ->
  attempts cfg fetch path timeout (S remaining) attempt trace
  = ((trace ++ [Request attempt (timeoutMs cfg path timeout)])%list,
     Throw (mkException NetworkConnectionError
              ("All " ++ string_of_Z (retries cfg)
               ++ " retries failed! Error: " ++ message error))).
Proof.
  intros Htry Ha Hs Hge. cbn [attempts]. rewrite Htry, Ha, Hs.
  apply Z.ltb_ge in Hge. now rewrite Hge.
Qed.

Lemma attempts_success cfg fetch path timeout remaining attempt trace result :
  tryOnce fetch attempt = Ok result ->
  attempts cfg fetch path timeout (S remaining) attempt trace
  = ((trace ++ [Request attempt (timeoutMs cfg path timeout)])%list, Ok result).
Proof. intros Htry. cbn [attempts]. now rewrite Htry. Qed.

End InterfaceFacts.

(** C1. [request('/convert/file', 'POST', {}, 5000)] under the default
    configuration: the deadline is [longTimeout] (300000 ms), not the
    explicit 5000 ms; an explicit [0] selects [defaultTimeout].  Without the
    argument the endpoint decides as documented. *)
Theorem C1_explicit_timeout_is_not_the_deadline :
  Interface.timeoutMs Interface.DEFAULT_CONFIG "/convert/file" (Js.VNum 5000)
  = 300000
  /\ Interface.timeoutMs Interface.DEFAULT_CONFIG "/upload/file" (Js.VNum 0)
     = 30000
  /\ Interface.timeoutMs Interface.DEFAULT_CONFIG "/upload/file" Js.VUndefined
     = 300000
  /\ Interface.timeoutMs Interface.DEFAULT_CONFIG "/download/url/get" Js.VUndefined
     = 300000
  /\ Interface.timeoutMs Interface.DEFAULT_CONFIG "/convert/file" Js.VUndefined
     = 30000.
Proof. repeat split; reflexivity. Qed.

(** A service error whose code is in [ERROR_CODE_MAP] ends [sendRequest]
    at the first attempt: one request, no backoff, the mapped class. *)
Lemma sendRequest_known_code_terminal :
  forall cfg fetch path timeout response body code message c,
    0 < Interface.retries cfg ->
    fetch 1 = Js.Ok response ->
    Interface.includes "application/json"
      (match Interface.contentType response with Some t => t | None => "" end)
    = true ->
    Interface.json response = Js.Ok body ->
    ErrorWrapper.hasError body = Js.Ok true ->
    ErrorWrapper.getErrorCode body = Js.Ok code ->
    ErrorWrapper.getErrorMessage body = Js.Ok message ->
    ExceptionHandler.lookupClass (Js.to_string code)
      ExceptionHandler.ERROR_CODE_MAP = Some c ->
    Interface.sendRequest cfg fetch path timeout
    = ([Interface.Request 1 (Interface.timeoutMs cfg path timeout)],
       Js.Throw (Exceptions.mkException c
                   ("[" ++ Js.to_string code ++ "] " ++ Js.to_string message))).
Proof.
  intros cfg fetch path timeout response body code message c
         Hpos Hfetch Hjson Hbody Herr Hcode Hmsg Hclass.
  unfold Interface.sendRequest.
  destruct (Z.to_nat (Interface.retries cfg)) as [|remaining] eqn:Hn; [lia|].
  apply attempts_APIError.
  - unfold Interface.tryOnce. rewrite Hfetch. cbn [Js.bind].
    rewrite Hjson, Hbody. cbn [Js.bind].
    unfold ExceptionHandler.raiseForResponse.
    rewrite Herr, Hcode, Hmsg. cbn [ExceptionHandler.liftTypeError Js.bind].
    now rewrite Hclass.
  - unfold Exceptions.instanceof. cbn [Exceptions.cls].
    now apply (ERROR_CODE_MAP_APIError (Js.to_string code)).
Qed.

(** C2. A JSON response reporting the error code [QUOTA_EXCEEDED], which
    is not a key of [ERROR_CODE_MAP], with [retries = 3]: [sendRequest]
    sends three requests, sleeps 2 s and 4 s between them, and ends in
    [NetworkConnectionError] instead of raising the mapped error at once. *)
Theorem C2_unknown_code_is_retried :
  let cfg := Interface.mkSettings 3 30000 300000 in
  let body :=
    Js.VObj [("error", Js.VObj [("code", Js.VStr "QUOTA_EXCEEDED");
                                ("message", Js.VStr "quota exceeded")])] in
  let fetch := fun _ : Z =>
    Js.Ok (Interface.mkResponse (Some "application/json") (Js.Ok body)) in
  ExceptionHandler.raiseForResponse body
  = Js.Throw (Exceptions.mkException Exceptions.APIException
                "[QUOTA_EXCEEDED] quota exceeded")
  /\ Exceptions.instanceof
       (Exceptions.mkException Exceptions.APIException
          "[QUOTA_EXCEEDED] quota exceeded") Exceptions.APIError = false
  /\ Interface.sendRequest cfg fetch "/convert/file" Js.VUndefined
     = ([Interface.Request 1 30000; Interface.Backoff 2000;
         Interface.Request 2 30000; Interface.Backoff 4000;
         Interface.Request 3 30000],
        Js.Throw (Exceptions.mkException Exceptions.NetworkConnectionError
                    "All 3 retries failed! Error: [QUOTA_EXCEEDED] quota exceeded")).
Proof. cbv zeta. repeat split; vm_compute; reflexivity. Qed.

(** The sibling path: the same response with a code of the table is
    raised at the first attempt. *)
Example sendRequest_known_code :
  let cfg := Interface.mkSettings 3 30000 300000 in
  let body :=
    Js.VObj [("error", Js.VObj [("code", Js.VStr "TOO_MANY_REQUESTS");
                                ("message", Js.VStr "slow down")])] in
  let fetch := fun _ : Z =>
    Js.Ok (Interface.mkResponse (Some "application/json") (Js.Ok body)) in
  Interface.sendRequest cfg fetch "/convert/file" Js.VUndefined
  = ([Interface.Request 1 30000],
     Js.Throw (Exceptions.mkException Exceptions.TooManyRequestsError
                 "[TOO_MANY_REQUESTS] slow down")).
Proof. vm_compute. reflexivity. Qed.

Section RetryFacts.
Import Js Exceptions Interface.

Lemma tryOnce_transportFails fetch attempt cause :
  transportFails fetch attempt cause -> tryOnce fetch attempt = Throw cause.
Proof. intros (H & _). unfold tryOnce. now rewrite H. Qed.

Lemma tryOnce_succeeds fetch attempt result :
  succeeds fetch attempt result -> tryOnce fetch attempt = Ok result.
Proof.
  intros (response & Hfetch & [(Hraw & ->) | (Hjson & body & warnings & Hb & Hr & ->)]);
    unfold tryOnce; rewrite Hfetch; cbn [bind].
  - now rewrite Hraw.
  - rewrite Hjson, Hb. cbn [bind]. now rewrite Hr.
Qed.

End RetryFacts.

(** C5. With [retries = 3] and a transport that fails at attempts 1 and 2
    and succeeds at attempt 3, [sendRequest] returns the successful result
    after three requests and exactly two backoff sleeps, of 2000 ms and
    4000 ms.  With [retries = 1] and a transport that always fails, it
    raises [NetworkConnectionError], whose message embeds the cause of the
    only attempt, after one request and no backoff sleep. *)
Theorem C5_retry_backoff :
  forall cfg3 cfg1 fetchA fetchB path timeout cause1 cause2 result,
    Interface.retries cfg3 = 3 ->
    Interface.transportFails fetchA 1 cause1 ->
    Interface.transportFails fetchA 2 cause2 ->
    Interface.succeeds fetchA 3 result ->
    Interface.retries cfg1 = 1 ->
    (forall attempt, exists cause, Interface.transportFails fetchB attempt cause) ->
    (exists trace,
        Interface.sendRequest cfg3 fetchA path timeout = (trace, Js.Ok result)
        /\ Interface.backoffs trace = [2 * 1000; 4 * 1000]
        /\ Interface.requests trace = 3%nat)
    /\
    (exists trace cause,
        Interface.transportFails fetchB 1 cause
        /\ Interface.sendRequest cfg1 fetchB path timeout
           = (trace,
              Js.Throw (Exceptions.mkException Exceptions.NetworkConnectionError
                          ("All 1 retries failed! Error: "
                           ++ Exceptions.message cause)))
        /\ Interface.backoffs trace = []
        /\ Interface.requests trace = 1%nat).
Proof.
  intros cfg3 cfg1 fetchA fetchB path timeout cause1 cause2 result
         H3 F1 F2 S3 H1 Hperm.
  split.
  - eexists. split.
    + unfold Interface.sendRequest. rewrite H3.
      change (Z.to_nat 3) with 3%nat.
      rewrite (attempts_retry _ _ _ _ _ _ _ cause1);
        [| now apply tryOnce_transportFails | apply F1 | apply F1 | lia].
      rewrite (attempts_retry _ _ _ _ _ _ _ cause2);
        [| now apply tryOnce_transportFails | apply F2 | apply F2 | lia].
      rewrite (attempts_success _ _ _ _ _ _ _ result);
        [| now apply tryOnce_succeeds].
      reflexivity.
    + split; reflexivity.
  - destruct (Hperm 1) as [cause Hc].
    eexists. exists cause. split; [exact Hc|]. split.
    + unfold Interface.sendRequest. rewrite H1.
      change (Z.to_nat 1) with 1%nat.
      rewrite (attempts_exhausted _ _ _ _ _ _ _ cause);
        [| now apply tryOnce_transportFails | apply Hc | apply Hc | lia].
      rewrite H1. reflexivity.
    + split; reflexivity.
Qed.

Lemma C5_retry_backoff_witness :
  let down := Exceptions.mkException Exceptions.TypeError "fetch failed" in
  let body := Js.VObj [("result", Js.VObj [("output", Js.VStr "ok")])] in
  let response := Interface.mkResponse (Some "application/json") (Js.Ok body) in
  let fetchA := fun attempt : Z =>
    if attempt <? 3 then Js.Throw down else Js.Ok response in
  let fetchB := fun _ : Z => @Js.Throw _ Interface.Response down in
  let cfg3 := Interface.mkSettings 3 30000 300000 in
  let cfg1 := Interface.mkSettings 1 30000 300000 in
  (exists trace,
      Interface.sendRequest cfg3 fetchA "/convert/file" Js.VUndefined
      = (trace, Js.Ok (Interface.Decoded body))
      /\ Interface.backoffs trace = [2 * 1000; 4 * 1000]
      /\ Interface.requests trace = 3%nat)
  /\
  (exists trace cause,
      Interface.transportFails fetchB 1 cause
      /\ Interface.sendRequest cfg1 fetchB "/convert/file" Js.VUndefined
         = (trace,
            Js.Throw (Exceptions.mkException Exceptions.NetworkConnectionError
                        ("All 1 retries failed! Error: "
                         ++ Exceptions.message cause)))
      /\ Interface.backoffs trace = []
      /\ Interface.requests trace = 1%nat).
Proof.
  intros down body response fetchA fetchB cfg3 cfg1.
  assert (Hdown : forall fetch attempt,
             fetch attempt = Js.Throw down ->
             Interface.transportFails fetch attempt down)
    by (intros fetch attempt H; split; [exact H | split; reflexivity]).
  apply (C5_retry_backoff cfg3 cfg1 fetchA fetchB "/convert/file"
           Js.VUndefined down down (Interface.Decoded body)).
  - reflexivity.
  - apply Hdown. reflexivity.
  - apply Hdown. reflexivity.
  - exists response. split; [reflexivity|]. right. split; [reflexivity|].
    exists body, []. split; [reflexivity|]. split; reflexivity.
  - reflexivity.
  - intros attempt. exists down. apply Hdown. reflexivity.
Defined.

(* ================================================================== *)
(** * Properties of the chunked stream pipeline *)

Section StreamChunkerFacts.
Import StreamChunker.

Lemma subarray_head (buffer : bytes) (size : Z) :
  0 < size -> size <= Z.of_nat (List.length buffer) ->
  subarray buffer 0 (Some size) = firstn (Z.to_nat size) buffer.
Proof.
  intros Hpos Hle. unfold subarray, relativeIndex.
  destruct (Z.ltb_spec 0 0); [lia|].
  destruct (Z.ltb_spec size 0); [lia|].
  rewrite Z.min_l by lia. rewrite Z.min_l by lia.
  now rewrite Z.sub_0_r.
Qed.

Lemma subarray_tail (buffer : bytes) (size : Z) :
  0 < size -> size <= Z.of_nat (List.length buffer) ->
  subarray buffer size None = skipn (Z.to_nat size) buffer.
Proof.
  intros Hpos Hle. unfold subarray, relativeIndex.
  destruct (Z.ltb_spec size 0); [lia|].
  rewrite Z.min_l by lia.
  apply firstn_all2. rewrite length_skipn. lia.
Qed.

Lemma emitAll_app (c : collector) (xs ys : list bytes) :
  emitAll c (xs ++ ys) = emitAll (emitAll c xs) ys.
Proof. apply fold_left_app. Qed.

Lemma received_emitAll (c : collector) (xs : list bytes) :
  received (emitAll c xs) = (received c ++ xs)%list.
Proof.
  unfold emitAll. revert c.
  induction xs as [|x xs IH]; intros c; simpl.
  - now rewrite app_nil_r.
  - rewrite IH. destruct c; simpl; now rewrite <- app_assoc.
Qed.

Lemma isWritable_emitAll (c : collector) (xs : list bytes) :
  isWritable (emitAll c xs) = isWritable c.
Proof.
  unfold emitAll. revert c.
  induction xs as [|x xs IH]; intros c; [reflexivity|].
  cbn [fold_left]. rewrite IH. now destruct c.
Qed.

(** One run of the slicing loop with a positive chunk size: it stops, has
    emitted full chunks only, and leaves less than a chunk. *)
Lemma sliceLoopNode_positive (size : Z) (Hpos : 0 < size) :
  forall n buffer,
    (List.length buffer <= n)%nat ->
    exists full rest,
      (forall fuel c,
          (List.length buffer < fuel)%nat ->
          sliceLoopNode fuel size buffer c = Some (rest, emitAll c full))
      /\ buffer = (List.concat full ++ rest)%list
      /\ Forall (fun chunk => List.length chunk = Z.to_nat size) full
      /\ Z.of_nat (List.length rest) < size.
Proof.
  induction n as [|n IH]; intros buffer Hn;
    destruct (Z.geb_spec (Z.of_nat (List.length buffer)) size) as [Hge|Hlt];
    try lia.
  - exists [], buffer. repeat split; [|constructor|lia].
    intros [|fuel] c Hfuel; [lia|]. cbn [sliceLoopNode].
    destruct (Z.geb_spec (Z.of_nat (List.length buffer)) size); [lia|reflexivity].
  - destruct (IH (skipn (Z.to_nat size) buffer))
      as (full & rest & Hrun & Hcat & Hall & Hrest).
    { rewrite length_skipn. lia. }
    exists (firstn (Z.to_nat size) buffer :: full), rest.
    repeat split.
    + intros [|fuel] c Hfuel; [lia|]. cbn [sliceLoopNode].
      destruct (Z.geb_spec (Z.of_nat (List.length buffer)) size); [|lia].
      rewrite subarray_head, subarray_tail by lia.
      apply Hrun. rewrite length_skipn. lia.
    + cbn [List.concat]. rewrite <- app_assoc, <- Hcat.
      symmetry. apply firstn_skipn.
    + constructor; [|exact Hall]. rewrite length_firstn. lia.
    + exact Hrest.
  - exists [], buffer. repeat split; [|constructor|lia].
    intros [|fuel] c Hfuel; [lia|]. cbn [sliceLoopNode].
    destruct (Z.geb_spec (Z.of_nat (List.length buffer)) size); [lia|reflexivity].
Qed.

(** The [for await] loop with a positive chunk size. *)
Lemma forAwaitNode_positive (size : Z) (Hpos : 0 < size) :
  forall chunks buffer,
    Z.of_nat (List.length buffer) < size ->
    exists full rest,
      (forall fuel c,
          (List.length buffer + List.length (sourceBytes (NodeReadable chunks))
           < fuel)%nat ->
          forAwaitNode fuel size chunks buffer c = Some (rest, emitAll c full))
      /\ (buffer ++ sourceBytes (NodeReadable chunks))%list
         = (List.concat full ++ rest)%list
      /\ Forall (fun chunk => List.length chunk = Z.to_nat size) full
      /\ Z.of_nat (List.length rest) < size.
Proof.
  induction chunks as [|chunk chunks IH]; intros buffer Hbuf.
  - exists [], buffer. cbn. rewrite app_nil_r. repeat split; auto.
  - set (incoming := match chunk with
                     | NodeText text => utf8 text
                     | NodeBuffer data => data
                     end).
    assert (Hsrc : sourceBytes (NodeReadable (chunk :: chunks))
                   = (incoming ++ sourceBytes (NodeReadable chunks))%list)
      by reflexivity.
    rewrite Hsrc.
    destruct (sliceLoopNode_positive size Hpos _ (buffer ++ incoming)%list (le_n _))
      as (full1 & rest1 & Hrun1 & Hcat1 & Hall1 & Hrest1).
    assert (Hlen : (List.length rest1 <= List.length buffer + List.length incoming)%nat).
    { apply (f_equal (@List.length _)) in Hcat1.
      rewrite !length_app in Hcat1. lia. }
    destruct (IH rest1 Hrest1) as (full2 & rest2 & Hrun2 & Hcat2 & Hall2 & Hrest2).
    exists (full1 ++ full2)%list, rest2. repeat split.
    + intros fuel c Hfuel. rewrite length_app in Hfuel.
      cbn [forAwaitNode]. fold incoming.
      rewrite Hrun1 by (rewrite length_app; lia).
      rewrite Hrun2 by lia. now rewrite emitAll_app.
    + rewrite app_assoc, Hcat1, <- app_assoc, Hcat2.
      now rewrite concat_app, <- app_assoc.
    + apply Forall_app; auto.
    + exact Hrest2.
Qed.

(** The browser loops are the Node.js loops on the same bytes. *)
Lemma sliceLoopBrowser_node (size : Z) :
  forall fuel buffer c,
    sliceLoopBrowser fuel size buffer c = sliceLoopNode fuel size buffer c.
Proof.
  induction fuel as [|fuel IH]; intros buffer c; [reflexivity|].
  cbn [sliceLoopBrowser sliceLoopNode]. unfold slice. now rewrite IH.
Qed.

Lemma readLoopBrowser_node (size : Z) (fuel : nat) :
  forall values buffer c,
    readLoopBrowser fuel size values buffer c
    = forAwaitNode fuel size (map asNodeChunk values) buffer c.
Proof.
  induction values as [|value values IH]; intros buffer c; [reflexivity|].
  cbn [readLoopBrowser forAwaitNode map]. rewrite sliceLoopBrowser_node.
  replace (match asNodeChunk value with
           | NodeText text => utf8 text
           | NodeBuffer data => data
           end)
    with (match value with
          | BrowserText text => utf8 text
          | BrowserUint8Array data => data
          | BrowserArrayBuffer data => data
          end) by now destruct value.
  destruct (sliceLoopNode fuel size _ c) as [[buffer' c']|]; [apply IH|reflexivity].
Qed.

Lemma process_browser_node (fuel : nat) (size : Z) values (c : collector) :
  process fuel (BrowserReadable values) size c
  = process fuel (NodeReadable (map asNodeChunk values)) size c.
Proof.
  cbn [process]. unfold processBrowserStream, processNodeStream.
  now rewrite readLoopBrowser_node.
Qed.

Lemma sourceBytes_browser_node values :
  sourceBytes (BrowserReadable values)
  = sourceBytes (NodeReadable (map asNodeChunk values)).
Proof.
  cbn [sourceBytes]. induction values as [|value values IH]; [reflexivity|].
  cbn [flat_map map]. rewrite IH. now destruct value.
Qed.

Lemma length_concat_uniform (n : nat) (chunks : list bytes) :
  Forall (fun chunk => List.length chunk = n) chunks ->
  List.length (List.concat chunks) = (List.length chunks * n)%nat.
Proof.
  induction 1 as [|chunk chunks Hc _ IH]; [reflexivity|].
  cbn [List.concat List.length]. rewrite length_app, IH, Hc. lia.
Qed.

Lemma ceilDiv_exact (k d : Z) : 0 < d -> 0 <= k -> ceilDiv (k * d) d = k.
Proof.
  intros Hd Hk. unfold ceilDiv. symmetry.
  apply Z.div_unique with (r := d - 1); lia.
Qed.

Lemma ceilDiv_partial (k d r : Z) :
  0 < r < d -> 0 <= k -> ceilDiv (k * d + r) d = k + 1.
Proof.
  intros Hr Hk. unfold ceilDiv. symmetry.
  apply Z.div_unique with (r := r - 1); lia.
Qed.

(** [processNodeStream] with a positive chunk size. *)
Lemma processNodeStream_positive (size : Z) (Hpos : 0 < size) chunks :
  exists emitted,
    (forall fuel c,
        (List.length (sourceBytes (NodeReadable chunks)) < fuel)%nat ->
        processNodeStream fuel size chunks c = Some (emitAll c emitted))
    /\ List.concat emitted = sourceBytes (NodeReadable chunks)
    /\ Z.of_nat (List.length emitted)
       = ceilDiv (Z.of_nat (List.length (sourceBytes (NodeReadable chunks)))) size
    /\ (forall i, (S i < List.length emitted)%nat ->
                  Z.of_nat (List.length (nth i emitted [])) = size)
    /\ Forall (fun chunk => 0 < Z.of_nat (List.length chunk) <= size) emitted.
Proof.
  destruct (forAwaitNode_positive size Hpos chunks []) as
    (full & rest & Hrun & Hcat & Hall & Hrest); [cbn; lia|].
  cbn [app] in Hcat.
  assert (Hfull : Forall (fun chunk => 0 < Z.of_nat (List.length chunk) <= size) full).
  { eapply Forall_impl; [|exact Hall]. cbv beta. intros chunk ->. lia. }
  assert (Hn : Z.of_nat (List.length (sourceBytes (NodeReadable chunks)))
               = Z.of_nat (List.length full) * size + Z.of_nat (List.length rest)).
  { rewrite Hcat, length_app, (length_concat_uniform _ _ Hall). lia. }
  destruct rest as [|b rest].
  - exists full. repeat split.
    + intros fuel c Hfuel. unfold processNodeStream.
      now rewrite (Hrun fuel c Hfuel).
    + now rewrite Hcat, app_nil_r.
    + rewrite Hn. cbn [List.length]. rewrite Z.add_0_r.
      symmetry. apply ceilDiv_exact; lia.
    + intros i Hi.
      rewrite Forall_forall in Hall.
      rewrite (Hall (nth i full [])) by (apply nth_In; lia). lia.
    + exact Hfull.
  - exists (full ++ [b :: rest])%list. repeat split.
    + intros fuel c Hfuel. unfold processNodeStream.
      rewrite (Hrun fuel c Hfuel). cbn [List.length Nat.ltb Nat.leb].
      now rewrite emitAll_app.
    + rewrite concat_app. cbn [List.concat]. now rewrite app_nil_r.
    + rewrite Hn, length_app. cbn [List.length] in *.
      rewrite ceilDiv_partial by lia. lia.
    + intros i Hi. rewrite length_app in Hi. cbn [List.length] in Hi.
      rewrite app_nth1 by lia.
      rewrite Forall_forall in Hall.
      rewrite (Hall (nth i full [])) by (apply nth_In; lia). lia.
    + apply Forall_app. split; [exact Hfull|].
      constructor; [|constructor]. cbn [List.length] in *. lia.
Qed.

(** With a chunk size of zero or below, the loop condition holds for
    every buffer, so no amount of fuel ends a run of the slicing loop. *)
Lemma sliceLoopNode_nonpositive (size : Z) (Hneg : size <= 0) :
  forall fuel buffer c, sliceLoopNode fuel size buffer c = None.
Proof.
  induction fuel as [|fuel IH]; intros buffer c; [reflexivity|].
  cbn [sliceLoopNode].
  destruct (Z.geb_spec (Z.of_nat (List.length buffer)) size); [apply IH|lia].
Qed.

Lemma processNodeStream_nonpositive (size : Z) (Hneg : size <= 0)
    fuel chunk chunks c :
  processNodeStream fuel size (chunk :: chunks) c = None.
Proof.
  unfold processNodeStream. cbn [forAwaitNode].
  now rewrite sliceLoopNode_nonpositive.
Qed.

(** [process] with a positive chunk size, for both stream shapes. *)
Lemma process_positive (size : Z) (Hpos : 0 < size) (s : stream) :
  exists emitted,
    (forall fuel c,
        (List.length (sourceBytes s) < fuel)%nat ->
        process fuel s size c = Some (emitAll c emitted))
    /\ List.concat emitted = sourceBytes s
    /\ Z.of_nat (List.length emitted)
       = ceilDiv (Z.of_nat (List.length (sourceBytes s))) size
    /\ (forall i, (S i < List.length emitted)%nat ->
                  Z.of_nat (List.length (nth i emitted [])) = size)
    /\ Forall (fun chunk => 0 < Z.of_nat (List.length chunk) <= size) emitted.
Proof.
  destruct s as [chunks|values].
  - apply processNodeStream_positive, Hpos.
  - destruct (processNodeStream_positive size Hpos (map asNodeChunk values))
      as (emitted & Hrun & Hrest).
    exists emitted. rewrite sourceBytes_browser_node. split; [|exact Hrest].
    intros fuel c Hfuel. rewrite process_browser_node. now apply Hrun.
Qed.

Lemma process_nonpositive (size : Z) (Hneg : size <= 0) (s : stream) :
  (0 < sourceLength s)%nat ->
  forall fuel c, process fuel s size c = None.
Proof.
  intros Hlen fuel c. destruct s as [[|chunk chunks]|[|value values]];
    cbn in Hlen; try lia.
  - apply processNodeStream_nonpositive, Hneg.
  - rewrite process_browser_node. apply processNodeStream_nonpositive, Hneg.
Qed.

End StreamChunkerFacts.

(** C3. For every finite source and every chunk size [C > 0], [process]
    finishes (any fuel above the source's byte count suffices) and hands
    the collector, behind what it already held, chunks whose concatenation
    is the source's bytes, whose number is ceil(N / C), and of which all
    but possibly the last have length [C]; nothing is emitted when the
    source has no bytes. *)
Theorem C3_chunking_round_trip :
  forall (s : StreamChunker.stream) (chunkSize : Z),
    0 < chunkSize ->
    exists emitted : list StreamChunker.bytes,
      (forall fuel c,
          (List.length (StreamChunker.sourceBytes s) < fuel)%nat ->
          exists result,
            StreamChunker.process fuel s chunkSize c = Some result
            /\ StreamChunker.received result
               = (StreamChunker.received c ++ emitted)%list
            /\ StreamChunker.isWritable result = StreamChunker.isWritable c)
      /\ List.concat emitted = StreamChunker.sourceBytes s
      /\ Z.of_nat (List.length emitted)
         = StreamChunker.ceilDiv
             (Z.of_nat (List.length (StreamChunker.sourceBytes s))) chunkSize
      /\ (forall i, (S i < List.length emitted)%nat ->
                    Z.of_nat (List.length (nth i emitted [])) = chunkSize)
      /\ (StreamChunker.sourceBytes s = [] -> emitted = []).
Proof.
  intros s chunkSize Hpos.
  destruct (process_positive chunkSize Hpos s)
    as (emitted & Hrun & Hcat & Hcount & Hfull & Hne).
  exists emitted. split; [|split; [|split; [|split]]]; try assumption.
  - intros fuel c Hfuel. exists (StreamChunker.emitAll c emitted).
    split; [now apply Hrun|].
    split; [apply received_emitAll|apply isWritable_emitAll].
  - intros Hempty. rewrite Hempty in Hcat.
    destruct emitted as [|chunk emitted]; [reflexivity|].
    inversion Hne as [|? ? Hchunk _]; subst.
    cbn [List.concat] in Hcat. apply app_eq_nil in Hcat as [-> _].
    cbn in Hchunk. lia.
Qed.

Lemma C3_chunking_round_trip_witness :
  let s := StreamChunker.NodeReadable
             [StreamChunker.NodeBuffer [Byte.x01; Byte.x02; Byte.x03];
              StreamChunker.NodeText "ab"] in
  exists emitted : list StreamChunker.bytes,
    (forall fuel c,
        (List.length (StreamChunker.sourceBytes s) < fuel)%nat ->
        exists result,
          StreamChunker.process fuel s 2 c = Some result
          /\ StreamChunker.received result
             = (StreamChunker.received c ++ emitted)%list
          /\ StreamChunker.isWritable result = StreamChunker.isWritable c)
    /\ List.concat emitted = StreamChunker.sourceBytes s
    /\ Z.of_nat (List.length emitted)
       = StreamChunker.ceilDiv
           (Z.of_nat (List.length (StreamChunker.sourceBytes s))) 2
    /\ (forall i, (S i < List.length emitted)%nat ->
                  Z.of_nat (List.length (nth i emitted [])) = 2)
    /\ (StreamChunker.sourceBytes s = [] -> emitted = []).
Proof.
  intros s. apply (C3_chunking_round_trip s 2). lia.
Defined.

(** Five bytes arriving as 3 + 2, cut in chunks of two. *)
Example process_five_bytes :
  StreamChunker.process 6
    (StreamChunker.BrowserReadable
       [StreamChunker.BrowserUint8Array [Byte.x01; Byte.x02; Byte.x03];
        StreamChunker.BrowserText "ab"])
    2 (StreamChunker.ChunkArray [])
  = Some (StreamChunker.ChunkArray
            [[Byte.x01; Byte.x02]; [Byte.x03; Byte.x61]; [Byte.x62]]).
Proof. reflexivity. Qed.

(** C9. With [chunkSize >= 1], [process] terminates on every finite
    source: one result is reached by every fuel above the byte count.
    With [chunkSize <= 0] and a source that yields at least one element,
    the slicing loop never leaves a buffer shorter than [chunkSize], and no
    fuel lets [process] finish. *)
Theorem C9_process_termination :
  forall (s1 s2 : StreamChunker.stream) (size1 size2 : Z)
         (c : StreamChunker.collector),
    1 <= size1 ->
    size2 <= 0 ->
    (0 < StreamChunker.sourceLength s2)%nat ->
    (exists result,
        forall fuel,
          (List.length (StreamChunker.sourceBytes s1) < fuel)%nat ->
          StreamChunker.process fuel s1 size1 c = Some result)
    /\ (forall buffer,
           size2 <= Z.of_nat (List.length (StreamChunker.subarray buffer size2 None)))
    /\ (forall fuel, StreamChunker.process fuel s2 size2 c = None).
Proof.
  intros s1 s2 size1 size2 c Hpos Hneg Hlen. repeat split.
  - destruct (process_positive size1 ltac:(lia) s1) as (emitted & Hrun & _).
    exists (StreamChunker.emitAll c emitted). intros fuel Hfuel.
    now apply Hrun.
  - lia.
  - intros fuel. now apply process_nonpositive.
Qed.

Lemma C9_process_termination_witness :
  let s := StreamChunker.NodeReadable
             [StreamChunker.NodeBuffer [Byte.x01; Byte.x02; Byte.x03]] in
  let c := StreamChunker.ChunkArray [] in
  (exists result,
      forall fuel,
        (List.length (StreamChunker.sourceBytes s) < fuel)%nat ->
        StreamChunker.process fuel s 2 c = Some result)
  /\ (forall buffer,
         0 <= Z.of_nat (List.length (StreamChunker.subarray buffer 0 None)))
  /\ (forall fuel, StreamChunker.process fuel s 0 c = None).
Proof.
  intros s c. apply (C9_process_termination s s 2 0 c).
  - lia.
  - lia.
  - simpl. lia.
Defined.

(** A negative chunk size on three bytes: every iteration leaves the last
    byte in the buffer. *)
Example subarray_negative :
  StreamChunker.subarray [Byte.x01; Byte.x02; Byte.x03] (-1) None = [Byte.x03]
  /\ StreamChunker.subarray [Byte.x01; Byte.x02; Byte.x03] 0 (Some (-1))
     = [Byte.x01; Byte.x02]
  /\ StreamChunker.subarray [Byte.x03] (-1) None = [Byte.x03]
  /\ StreamChunker.process 1000
       (StreamChunker.NodeReadable
          [StreamChunker.NodeBuffer [Byte.x01; Byte.x02; Byte.x03]])
       (-1) (StreamChunker.ChunkArray []) = None.
Proof. repeat split; vm_compute; reflexivity. Qed.

(* ================================================================== *)
(** * Properties of format canonicalization *)

Section MiscFacts.
Import Misc.

Lemma lowerChar_idempotent (c : ascii) : lowerChar (lowerChar c) = lowerChar c.
Proof. destruct c as [[] [] [] [] [] [] [] []]; reflexivity. Qed.

Lemma isWhiteSpace_lowerChar (c : ascii) :
  isWhiteSpace (lowerChar c) = isWhiteSpace c.
Proof. destruct c as [[] [] [] [] [] [] [] []]; reflexivity. Qed.

Lemma toLowerCase_idempotent (s : string) :
  toLowerCase (toLowerCase s) = toLowerCase s.
Proof.
  induction s as [|c s IH]; [reflexivity|].
  cbn [toLowerCase]. now rewrite lowerChar_idempotent, IH.
Qed.

Lemma toLowerCase_slice1 (s : string) :
  toLowerCase (slice1 s) = slice1 (toLowerCase s).
Proof. now destruct s. Qed.

Lemma trimEnd_idempotent (s : string) : trimEnd (trimEnd s) = trimEnd s.
Proof.
  induction s as [|c s IH]; [reflexivity|].
  cbn [trimEnd]. destruct (trimEnd s) as [|d kept] eqn:E.
  - destruct (isWhiteSpace c) eqn:W; [reflexivity|].
    cbn [trimEnd]. now rewrite W.
  - cbn [trimEnd] in *. now rewrite IH.
Qed.

(** A string without trailing white space keeps that property when its
    first character is removed. *)
Lemma trimEnd_fixed_tail (c : ascii) (s : string) :
  trimEnd (String c s) = String c s -> trimEnd s = s.
Proof.
  cbn [trimEnd]. destruct (trimEnd s) as [|d kept] eqn:E.
  - destruct (isWhiteSpace c); [discriminate|].
    intros H. injection H as <-. reflexivity.
  - intros H. now injection H as <-.
Qed.

Lemma trimEnd_fixed_trimStart (s : string) :
  trimEnd s = s -> trimEnd (trimStart s) = trimStart s.
Proof.
  induction s as [|c s IH]; [reflexivity|]. intros H.
  cbn [trimStart]. destruct (isWhiteSpace c); [|exact H].
  apply IH. exact (trimEnd_fixed_tail _ _ H).
Qed.

Lemma trimEnd_toLowerCase (s : string) :
  trimEnd (toLowerCase s) = toLowerCase (trimEnd s).
Proof.
  induction s as [|c s IH]; [reflexivity|].
  cbn [toLowerCase trimEnd]. rewrite IH, isWhiteSpace_lowerChar.
  destruct (trimEnd s) as [|d kept]; cbn [toLowerCase];
    [destruct (isWhiteSpace c)|]; reflexivity.
Qed.

Lemma trimEnd_fixed_slice1 (s : string) :
  trimEnd s = s -> trimEnd (slice1 s) = slice1 s.
Proof.
  destruct s as [|c s]; [reflexivity|]. apply trimEnd_fixed_tail.
Qed.

(** The string [canonicalizeFormat] is about to return has no trailing
    white space and is in lower case. *)
Lemma canonical_body (s : string) :
  let lowered := toLowerCase (trim s) in
  let body := if String.prefix "." lowered then slice1 lowered else lowered in
  trimEnd body = body /\ toLowerCase body = body.
Proof.
  cbv zeta.
  assert (Hend : trimEnd (toLowerCase (trim s)) = toLowerCase (trim s)).
  { rewrite trimEnd_toLowerCase. f_equal. unfold trim.
    apply trimEnd_fixed_trimStart, trimEnd_idempotent. }
  destruct (String.prefix "." (toLowerCase (trim s))); split.
  - now apply trimEnd_fixed_slice1.
  - now rewrite toLowerCase_slice1, toLowerCase_idempotent.
  - exact Hend.
  - apply toLowerCase_idempotent.
Qed.

(** A second pass changes nothing when the first result begins neither
    with a dot nor with white space. *)
Lemma canonicalizeFormat_stable (formatName : option string) :
  startsWithDotOrSpace (canonicalizeFormat formatName) = false ->
  canonicalizeFormat (canonicalizeFormat formatName)
  = canonicalizeFormat formatName.
Proof.
  destruct formatName as [[|c0 s0]|]; try reflexivity.
  set (s := String c0 s0).
  change (canonicalizeFormat (Some s)) with
    (nonEmpty (if String.prefix "." (toLowerCase (trim s))
               then slice1 (toLowerCase (trim s))
               else toLowerCase (trim s))).
  destruct (canonical_body s) as [Hend Hlow]. cbv zeta in Hend, Hlow.
  destruct (if String.prefix "." (toLowerCase (trim s))
            then slice1 (toLowerCase (trim s))
            else toLowerCase (trim s)) as [|c body]; [reflexivity|].
  cbn [nonEmpty startsWithDotOrSpace]. intros Hclean.
  apply orb_false_iff in Hclean as [Hws Hdot].
  cbn [canonicalizeFormat]. unfold trim. rewrite Hend.
  cbn [trimStart]. rewrite Hws, Hlow.
  cbn [String.prefix].
  destruct (ascii_dec "." c) as [<-|_]; [discriminate Hdot|reflexivity].
Qed.

Lemma length_toLowerCase (s : string) :
  String.length (toLowerCase s) = String.length s.
Proof. induction s as [|c s IH]; cbn; congruence. Qed.

Lemma length_trimStart (s : string) :
  (String.length (trimStart s) <= String.length s)%nat.
Proof.
  induction s as [|c s IH]; cbn; [lia|].
  destruct (isWhiteSpace c); cbn; lia.
Qed.

Lemma length_slice1 (s : string) :
  (String.length (slice1 s) <= String.length s)%nat.
Proof. destruct s; cbn; lia. Qed.

Lemma nonEmpty_Some (s r : string) : nonEmpty s = Some r -> r = s.
Proof. destruct s; cbn; congruence. Qed.

(** Otherwise the second pass removes something more. *)
Lemma canonicalizeFormat_unstable (formatName : option string) :
  startsWithDotOrSpace (canonicalizeFormat formatName) = true ->
  canonicalizeFormat (canonicalizeFormat formatName)
  <> canonicalizeFormat formatName.
Proof.
  destruct formatName as [[|c0 s0]|]; try discriminate.
  set (s := String c0 s0).
  change (canonicalizeFormat (Some s)) with
    (nonEmpty (if String.prefix "." (toLowerCase (trim s))
               then slice1 (toLowerCase (trim s))
               else toLowerCase (trim s))).
  destruct (canonical_body s) as [Hend Hlow]. cbv zeta in Hend, Hlow.
  destruct (if String.prefix "." (toLowerCase (trim s))
            then slice1 (toLowerCase (trim s))
            else toLowerCase (trim s)) as [|c body]; [discriminate|].
  cbn [nonEmpty startsWithDotOrSpace]. intros Hdirty.
  cbn [canonicalizeFormat]. unfold trim. rewrite Hend.
  cbn [trimStart]. intros Heq. apply nonEmpty_Some in Heq.
  apply (f_equal String.length) in Heq. cbn [String.length] in Heq.
  destruct (isWhiteSpace c) eqn:W.
  - pose proof (length_trimStart body) as Hle.
    pose proof (length_toLowerCase (trimStart body)) as Hlo.
    pose proof (length_slice1 (toLowerCase (trimStart body))) as Hs1.
    destruct (String.prefix "." (toLowerCase (trimStart body))); lia.
  - cbn [orb] in Hdirty. apply Ascii.eqb_eq in Hdirty. subst c.
    rewrite Hlow in Heq. cbn [String.prefix] in Heq.
    destruct (ascii_dec "." ".") as [_|Hne]; [|congruence].
    destruct body; cbn [String.prefix slice1 String.length] in Heq; lia.
Qed.

End MiscFacts.

(** C4 (as amended). [canonicalizeFormat] is idempotent at every input
    whose canonical form begins neither with a dot nor with white space;
    [".PDF"] gives ["pdf"], ["  HTML "] gives ["html"], and [undefined]
    gives [undefined]. *)
Theorem C4_canonicalizeFormat_idempotent :
  forall formatName : option string,
    Misc.startsWithDotOrSpace (Misc.canonicalizeFormat formatName) = false ->
    Misc.canonicalizeFormat (Misc.canonicalizeFormat formatName)
    = Misc.canonicalizeFormat formatName
    /\ Misc.canonicalizeFormat (Some ".PDF") = Some "pdf"
    /\ Misc.canonicalizeFormat (Some "  HTML ") = Some "html"
    /\ Misc.canonicalizeFormat None = None.
Proof.
  intros formatName Hclean. split; [|repeat split; reflexivity].
  now apply canonicalizeFormat_stable.
Qed.

Lemma C4_canonicalizeFormat_idempotent_witness :
  Misc.canonicalizeFormat (Misc.canonicalizeFormat (Some " .SVG:Font "))
  = Misc.canonicalizeFormat (Some " .SVG:Font ")
  /\ Misc.canonicalizeFormat (Some ".PDF") = Some "pdf"
  /\ Misc.canonicalizeFormat (Some "  HTML ") = Some "html"
  /\ Misc.canonicalizeFormat None = None.
Proof.
  apply (C4_canonicalizeFormat_idempotent (Some " .SVG:Font ")).
  reflexivity.
Defined.

(** C4 as stated fails: only one leading dot is removed per pass. *)
Lemma C4_counterexample :
  Misc.canonicalizeFormat (Some "..pdf") = Some ".pdf"
  /\ Misc.canonicalizeFormat (Misc.canonicalizeFormat (Some "..pdf")) = Some "pdf"
  /\ Misc.canonicalizeFormat (Misc.canonicalizeFormat (Some "..pdf"))
     <> Misc.canonicalizeFormat (Some "..pdf").
Proof. repeat split; try reflexivity. vm_compute. discriminate. Qed.

(** White space behind the dot is uncovered in the same way. *)
Example canonicalizeFormat_dot_space :
  Misc.canonicalizeFormat (Some ". pdf") = Some " pdf"
  /\ Misc.canonicalizeFormat (Some " pdf") = Some "pdf".
Proof. split; reflexivity. Qed.

(* ================================================================== *)
(** * Properties of the polling loop *)

Section ConversionFacts.
Import Js Exceptions Conversion.

Variable pollIntervals : list value.

(** The loop's update of [step] is the clamped successor. *)
Lemma stepAt_next (k : nat) :
  (if Z.of_nat (stepAt pollIntervals k)
      <? Z.of_nat (List.length pollIntervals) - 1
   then S (stepAt pollIntervals k) else stepAt pollIntervals k)
  = stepAt pollIntervals (S k).
Proof.
  unfold stepAt.
  destruct (Z.ltb_spec (Z.of_nat (Nat.min k (List.length pollIntervals - 1)))
              (Z.of_nat (List.length pollIntervals) - 1)); lia.
Qed.

(** [n] unfinished polls over numeric intervals: [n] sleeps, and the loop
    goes on from the clamped index. *)
Lemma waitLoop_running (n : nat) :
  forall j sleeps rest,
    (forall k, (j <= k < j + n)%nat ->
               isNumber (nth (stepAt pollIntervals k) pollIntervals VUndefined) = true) ->
    waitLoop pollIntervals (repeat (Ok false) n ++ rest)
      (stepAt pollIntervals j) sleeps
    = waitLoop pollIntervals rest (stepAt pollIntervals (j + n))
        (sleeps ++ map (sleepAt pollIntervals) (seq j n)).
Proof.
  induction n as [|n IH]; intros j sleeps rest Hnum.
  - cbn. now rewrite Nat.add_0_r, app_nil_r.
  - cbn [repeat app waitLoop].
    pose proof (Hnum j ltac:(lia)) as Hj.
    destruct (nth (stepAt pollIntervals j) pollIntervals VUndefined)
      as [| | | secs | | |] eqn:E; try discriminate.
    rewrite stepAt_next, IH by (intros k Hk; apply Hnum; lia).
    cbn [seq map]. unfold sleepAt at 2. rewrite E. cbn [seconds].
    rewrite <- app_assoc. cbn [app]. now rewrite Nat.add_succ_r.
Qed.

Lemma wait_running (n : nat) rest :
  (forall k, (k < n)%nat ->
             isNumber (nth (stepAt pollIntervals k) pollIntervals VUndefined) = true) ->
  wait pollIntervals (repeat (Ok false) n ++ rest)
  = waitLoop pollIntervals rest (stepAt pollIntervals n)
      (sleepsFor pollIntervals n).
Proof.
  intros Hnum. unfold wait, sleepsFor.
  change 0%nat with (stepAt pollIntervals 0) at 1.
  rewrite waitLoop_running by (intros k Hk; apply Hnum; lia).
  reflexivity.
Qed.

End ConversionFacts.

Lemma nth_length_pred_last (l : list Z) (d : Z) :
  nth (List.length l - 1) l d = last l d.
Proof.
  induction l as [|x [|y l] IH]; try reflexivity.
  change (last (x :: y :: l) d) with (last (y :: l) d).
  rewrite <- IH. cbn [List.length Nat.sub nth].
  now rewrite Nat.sub_0_r.
Qed.

(** C6. For a non-empty sequence of numeric intervals: while the task is
    not completed the loop keeps polling, and after [n] unfinished polls it
    has slept [n] times, is still inside the loop, and its index is
    [min n (length - 1)] (one step per poll, clamped at the last element);
    every sleep from the last index on lasts the final interval; the loop
    resolves at the first poll that reports completion, however many polls
    that takes. *)
Theorem C6_wait_clamps_and_continues :
  forall (secs : list Z) (n : nat)
         (rest : list (Js.completion Exceptions.exception bool)),
    secs <> [] ->
    let pollIntervals := map Js.VNum secs in
    Conversion.wait pollIntervals (repeat (Js.Ok false) n)
    = (Conversion.sleepsFor pollIntervals n,
       Conversion.Polling (Nat.min n (List.length secs - 1)))
    /\ Conversion.wait pollIntervals (repeat (Js.Ok false) n ++ Js.Ok true :: rest)
       = (Conversion.sleepsFor pollIntervals n, Conversion.Resolved)
    /\ (forall k, (k < n)%nat ->
          nth k (Conversion.sleepsFor pollIntervals n) 0
          = nth (Nat.min k (List.length secs - 1)) secs 0 * 1000)
    /\ (forall k, (List.length secs - 1 <= k < n)%nat ->
          nth k (Conversion.sleepsFor pollIntervals n) 0 = last secs 0 * 1000).
Proof.
  intros secs n rest Hne pollIntervals.
  assert (Hnum : forall k,
             Conversion.isNumber
               (nth (Conversion.stepAt pollIntervals k) pollIntervals Js.VUndefined)
             = true).
  { intros k. unfold pollIntervals, Conversion.stepAt.
    rewrite length_map.
    rewrite (nth_indep _ Js.VUndefined (Js.VNum 0)).
    - now rewrite (map_nth Js.VNum).
    - rewrite length_map. destruct secs; [congruence|]. cbn [List.length]. lia. }
  assert (Hsleep : forall k, (k < n)%nat ->
             nth k (Conversion.sleepsFor pollIntervals n) 0
             = nth (Nat.min k (List.length secs - 1)) secs 0 * 1000).
  { intros k Hk. unfold Conversion.sleepsFor.
    rewrite (nth_indep _ 0 (Conversion.sleepAt pollIntervals 0))
      by (rewrite length_map, length_seq; exact Hk).
    rewrite (map_nth (Conversion.sleepAt pollIntervals)), seq_nth by exact Hk.
    cbn [Nat.add]. unfold Conversion.sleepAt, Conversion.stepAt, pollIntervals.
    rewrite length_map.
    rewrite (nth_indep _ Js.VUndefined (Js.VNum 0)).
    - now rewrite (map_nth Js.VNum).
    - rewrite length_map. destruct secs; [congruence|]. cbn [List.length]. lia. }
  repeat split.
  - rewrite <- (app_nil_r (repeat (Js.Ok false) n)).
    rewrite wait_running by (intros; apply Hnum).
    cbn [Conversion.waitLoop]. unfold Conversion.stepAt, pollIntervals.
    now rewrite length_map.
  - rewrite wait_running by (intros; apply Hnum). reflexivity.
  - exact Hsleep.
  - intros k [Hlast Hk]. rewrite Hsleep by exact Hk.
    rewrite Nat.min_r by exact Hlast.
    now rewrite nth_length_pred_last.
Qed.

Lemma C6_wait_clamps_and_continues_witness :
  let pollIntervals := map Js.VNum [10; 10; 15] in
  Conversion.wait pollIntervals (repeat (Js.Ok false) 5)
  = (Conversion.sleepsFor pollIntervals 5, Conversion.Polling (Nat.min 5 (3 - 1)))
  /\ Conversion.wait pollIntervals (repeat (Js.Ok false) 5 ++ Js.Ok true :: [])
     = (Conversion.sleepsFor pollIntervals 5, Conversion.Resolved)
  /\ (forall k, (k < 5)%nat ->
        nth k (Conversion.sleepsFor pollIntervals 5) 0
        = nth (Nat.min k (3 - 1)) [10; 10; 15] 0 * 1000)
  /\ (forall k, (3 - 1 <= k < 5)%nat ->
        nth k (Conversion.sleepsFor pollIntervals 5) 0 = last [10; 10; 15] 0 * 1000).
Proof.
  apply (C6_wait_clamps_and_continues [10; 10; 15] 5 []).
  discriminate.
Defined.

(** The default pattern polled six times before completion. *)
Example wait_default_pattern :
  Conversion.wait Conversion.SLEEP_PATTERN
    (repeat (Js.Ok false) 5 ++ [Js.Ok true])
  = ([10000; 10000; 15000; 15000; 15000], Conversion.Resolved).
Proof. reflexivity. Qed.

(** C7 (as amended). When the element at the index currently required is
    not of type number (missing, [null], a string, ...), and the elements
    required before it were numbers, [wait] throws at that poll: it has
    slept for the earlier polls only, and does not sleep at this step.
    A numeric element is slept on whatever its sign. *)
Theorem C7_wait_rejects_non_number :
  forall (pollIntervals : list Js.value) (n : nat)
         (rest : list (Js.completion Exceptions.exception bool)),
    (forall k, (k < n)%nat ->
       Conversion.isNumber
         (nth (Conversion.stepAt pollIntervals k) pollIntervals Js.VUndefined)
       = true) ->
    Conversion.isNumber
      (nth (Conversion.stepAt pollIntervals n) pollIntervals Js.VUndefined)
    = false ->
    Conversion.wait pollIntervals (repeat (Js.Ok false) n ++ Js.Ok false :: rest)
    = (Conversion.sleepsFor pollIntervals n,
       Conversion.Rejected
         (Conversion.invalidInterval pollIntervals
            (Conversion.stepAt pollIntervals n))).
Proof.
  intros pollIntervals n rest Hbefore Hbad.
  rewrite wait_running by exact Hbefore.
  cbn [Conversion.waitLoop]. unfold Conversion.invalidInterval.
  destruct (nth (Conversion.stepAt pollIntervals n) pollIntervals Js.VUndefined);
    try reflexivity.
  discriminate Hbad.
Qed.

Lemma C7_wait_rejects_non_number_witness :
  let pollIntervals := [Js.VNum 10; Js.VStr "15"] in
  Conversion.wait pollIntervals
    (repeat (Js.Ok false) 1 ++ Js.Ok false :: [Js.Ok true])
  = (Conversion.sleepsFor pollIntervals 1,
     Conversion.Rejected
       (Conversion.invalidInterval pollIntervals
          (Conversion.stepAt pollIntervals 1))).
Proof.
  apply (C7_wait_rejects_non_number [Js.VNum 10; Js.VStr "15"] 1 [Js.Ok true]).
  - intros k Hk. assert (k = 0)%nat as -> by lia. reflexivity.
  - reflexivity.
Defined.

(** C7 as stated fails: a zero and a negative interval are of type number,
    so [wait] sleeps on them and resolves at the next poll. *)
Lemma C7_counterexample :
  Conversion.wait [Js.VNum 0] [Js.Ok false; Js.Ok true]
  = ([0], Conversion.Resolved)
  /\ Conversion.wait [Js.VNum (-5)] [Js.Ok false; Js.Ok true]
     = ([-5000], Conversion.Resolved).
Proof. split; reflexivity. Qed.

(** An empty sequence has no element 0: the first unfinished poll is
    rejected. *)
Example wait_empty_sequence :
  Conversion.wait [] [Js.Ok false; Js.Ok true]
  = ([],
     Conversion.Rejected
       (Exceptions.mkException Exceptions.Error
          "pollIntervals[0] is not a valid number: undefined")).
Proof. reflexivity. Qed.

(* ================================================================== *)
(** * Further properties of the error classifier *)

Section ErrorWrapperMore.
Import Js ErrorWrapper.

Lemma getByPath_null (path : list string) : getByPath VNull path = Ok VNull.
Proof. now destruct path. Qed.

Lemma getByPath_primitive (data : value) (key : string) (rest : list string) :
  match data with VObj _ => False | _ => True end ->
  getByPath data (key :: rest) = Ok VNull.
Proof. destruct data; simpl; tauto. Qed.

Lemma getByPath_app (p q : list string) :
  forall data,
    getByPath data (p ++ q) = bind (getByPath data p) (fun v => getByPath v q).
Proof.
  induction p as [|key rest IH]; intros data; [reflexivity|].
  destruct data as [| |b|n|s|items|fields];
    try (cbn; now rewrite getByPath_null).
  cbn [app getByPath typeof_object andb negb get bind].
  destruct (lookup key fields) eqn:E;
    try apply IH.
  cbn [bind]. now rewrite getByPath_null.
Qed.

(** The loop of [getError] over any list of paths returns the value at
    the first path that hits, or the empty object when none does. *)
Lemma firstAt_first_hit (response : value) (paths : list (list string)) :
  forall e,
    firstAt response paths = Ok e ->
    (exists i path,
        nth_error paths i = Some path
        /\ getByPath response path = Ok e
        /\ bearsCodeOrMessage e = Ok true
        /\ forall j earlier,
             (j < i)%nat -> nth_error paths j = Some earlier ->
             exists v, getByPath response earlier = Ok v
                       /\ bearsCodeOrMessage v = Ok false)
    \/ (e = VObj []
        /\ forall path, In path paths ->
             exists v, getByPath response path = Ok v
                       /\ bearsCodeOrMessage v = Ok false).
Proof.
  induction paths as [|path rest IH]; intros e; cbn [firstAt].
  - intros H. injection H as <-. right. split; [reflexivity|]. intros ? [].
  - destruct (getByPath_total path response) as [err Herr]. rewrite Herr.
    cbn [bind]. destruct (bearsCodeOrMessage_total err) as [[|] Hhit];
      rewrite Hhit; cbn [bind].
    + intros H. injection H as <-. left. exists 0%nat, path.
      repeat split; auto. intros j earlier Hj. lia.
    + intros H. destruct (IH e H) as [(i & p & Hi & Hp & Hb & Hearlier) | (-> & Hnone)].
      * left. exists (S i), p. repeat split; auto.
        intros [|j] earlier Hj Hn.
        -- injection Hn as <-. now exists err.
        -- apply (Hearlier j); [lia|exact Hn].
      * right. split; [reflexivity|]. intros p [<-|Hin]; [now exists err|auto].
Qed.

(** [getWarnings] over any list of paths collects exactly the hits. *)
Lemma collectAt_hits (response : value) (paths : list (list string)) :
  exists ws,
    collectAt response paths = Ok ws
    /\ somePath response paths = Ok (negb (match ws with [] => true | _ => false end))
    /\ (forall w, In w ws <->
          exists path, In path paths
                       /\ getByPath response path = Ok w
                       /\ bearsCodeOrMessage w = Ok true)
    /\ (List.length ws <= List.length paths)%nat.
Proof.
  induction paths as [|path rest (ws & Hc & Hs & Hin & Hlen)]; cbn [collectAt somePath].
  - exists []. repeat split; auto.
    + intros [].
    + intros (p & [] & _).
  - destruct (getByPath_total path response) as [w0 Hw0]. rewrite Hw0.
    cbn [bind]. destruct (bearsCodeOrMessage_total w0) as [[|] Hhit];
      rewrite Hhit, Hc; cbn [bind].
    + exists (w0 :: ws). repeat split; auto.
      * intros [<-|Hw]; [exists path; cbn; auto|].
        apply Hin in Hw as (p & Hp & Hrest). exists p; cbn; auto.
      * intros (p & [<-|Hp] & Hg & Hb).
        -- left. congruence.
        -- right. apply Hin. now exists p.
      * cbn. lia.
    + exists ws. repeat split; auto.
      * intros Hw. apply Hin in Hw as (p & Hp & Hrest). exists p; cbn; auto.
      * intros (p & [<-|Hp] & Hg & Hb).
        -- congruence.
        -- apply Hin. now exists p.
      * cbn. lia.
Qed.

End ErrorWrapperMore.

(** X1. Paths compose: reading [p ++ q] is reading [p] and then [q] from
    what was found, for every value and all paths; a miss on the way
    ([null]) stays a miss. *)
Theorem X1_getByPath_compose :
  forall (data : Js.value) (p q : list string),
    ErrorWrapper.getByPath data (p ++ q)
    = Js.bind (ErrorWrapper.getByPath data p)
        (fun v => ErrorWrapper.getByPath v q).
Proof. intros data p q. apply getByPath_app. Qed.

(** X2. For a non-empty path made of the keys of the classifier's path
    tables ([error], [result], [output], [warning]), [getByPath] never
    answers [undefined]: it answers [null] when the start value is not a
    non-null object, or is an array, or lacks the first key. *)
Theorem X2_getByPath_missing_is_null :
  forall (data : Js.value) (key : string) (rest : list string),
    Forall (fun k => In k ObjectPrototype.pathKeys) (key :: rest) ->
    (exists v, ErrorWrapper.getByPath data (key :: rest) = Js.Ok v
               /\ v <> Js.VUndefined)
    /\ (forall fields,
           data = Js.VObj fields -> Js.lookup key fields = Js.VUndefined ->
           ErrorWrapper.getByPath data (key :: rest) = Js.Ok Js.VNull)
    /\ (match data with Js.VObj _ => False | _ => True end ->
        ErrorWrapper.getByPath data (key :: rest) = Js.Ok Js.VNull).
Proof.
  intros data key rest _. repeat split.
  - revert data key. induction rest as [|key' rest IH]; intros data key.
    + destruct data as [| |b|n|s|items|fields];
        try (exists Js.VNull; split; [reflexivity|discriminate]).
      cbn. destruct (Js.lookup key fields) eqn:E;
        eexists; (split; [reflexivity|discriminate]).
    + destruct data as [| |b|n|s|items|fields];
        try (exists Js.VNull; split; [reflexivity|discriminate]).
      cbn [ErrorWrapper.getByPath Js.typeof_object andb negb Js.get Js.bind].
      destruct (Js.lookup key fields) eqn:E;
        try apply IH.
      exists Js.VNull; split; [reflexivity|discriminate].
  - intros fields -> Hmiss. cbn. now rewrite Hmiss.
  - apply getByPath_primitive.
Qed.

Lemma X2_getByPath_missing_is_null_witness :
  let data := Js.VObj [("result", Js.VArr [Js.VNum 1; Js.VNum 2])] in
  (exists v, ErrorWrapper.getByPath data ["result"; "error"] = Js.Ok v
             /\ v <> Js.VUndefined)
  /\ (forall fields,
         data = Js.VObj fields -> Js.lookup "result" fields = Js.VUndefined ->
         ErrorWrapper.getByPath data ["result"; "error"] = Js.Ok Js.VNull)
  /\ (match data with Js.VObj _ => False | _ => True end ->
      ErrorWrapper.getByPath data ["result"; "error"] = Js.Ok Js.VNull).
Proof.
  intros data.
  apply (X2_getByPath_missing_is_null data "result" ["error"]).
  repeat constructor; cbn; tauto.
Defined.

(** X3. [getError] returns the value found at the first path of
    [errorPaths] (root, [error], [result.error],
    [result.output.result.error]) that bears a truthy code or message, no
    earlier path bearing one; it returns the empty object exactly when no
    path does. *)
Theorem X3_getError_first_hit :
  forall (response e : Js.value),
    ErrorWrapper.getError response = Js.Ok e ->
    (exists i path,
        nth_error ErrorWrapper.errorPaths i = Some path
        /\ ErrorWrapper.getByPath response path = Js.Ok e
        /\ ErrorWrapper.bearsCodeOrMessage e = Js.Ok true
        /\ forall j earlier,
             (j < i)%nat ->
             nth_error ErrorWrapper.errorPaths j = Some earlier ->
             exists v, ErrorWrapper.getByPath response earlier = Js.Ok v
                       /\ ErrorWrapper.bearsCodeOrMessage v = Js.Ok false)
    \/ (e = Js.VObj []
        /\ forall path, In path ErrorWrapper.errorPaths ->
             exists v, ErrorWrapper.getByPath response path = Js.Ok v
                       /\ ErrorWrapper.bearsCodeOrMessage v = Js.Ok false).
Proof. intros response e. apply firstAt_first_hit. Qed.

Lemma X3_getError_first_hit_witness :
  let inner := Js.VObj [("message", Js.VStr "conversion failed")] in
  let response :=
    Js.VObj [("result",
              Js.VObj [("output",
                        Js.VObj [("result", Js.VObj [("error", inner)])])])] in
  (exists i path,
      nth_error ErrorWrapper.errorPaths i = Some path
      /\ ErrorWrapper.getByPath response path = Js.Ok inner
      /\ ErrorWrapper.bearsCodeOrMessage inner = Js.Ok true
      /\ forall j earlier,
           (j < i)%nat ->
           nth_error ErrorWrapper.errorPaths j = Some earlier ->
           exists v, ErrorWrapper.getByPath response earlier = Js.Ok v
                     /\ ErrorWrapper.bearsCodeOrMessage v = Js.Ok false)
  \/ (inner = Js.VObj []
      /\ forall path, In path ErrorWrapper.errorPaths ->
           exists v, ErrorWrapper.getByPath response path = Js.Ok v
                     /\ ErrorWrapper.bearsCodeOrMessage v = Js.Ok false).
Proof.
  intros inner response.
  apply (X3_getError_first_hit response inner). reflexivity.
Defined.

(** X4. [getWarnings] never throws and returns, in path order, exactly
    the values found at the warning paths that bear a truthy code or
    message (all of them, not the first only), at most four; [hasWarning]
    is true exactly when that list is not empty. *)
Theorem X4_getWarnings_all_hits :
  forall response : Js.value,
    exists ws,
      ErrorWrapper.getWarnings response = Js.Ok ws
      /\ ErrorWrapper.hasWarning response
         = Js.Ok (negb (match ws with [] => true | _ => false end))
      /\ (forall w, In w ws <->
            exists path, In path ErrorWrapper.warningPaths
                         /\ ErrorWrapper.getByPath response path = Js.Ok w
                         /\ ErrorWrapper.bearsCodeOrMessage w = Js.Ok true)
      /\ (List.length ws <= 4)%nat.
Proof.
  intros response.
  destruct (collectAt_hits response ErrorWrapper.warningPaths)
    as (ws & Hc & Hs & Hin & Hlen).
  exists ws. repeat split; try assumption; apply Hin.
Qed.

(** Two warnings at different depths are both reported. *)
Example getWarnings_two_paths :
  let w1 := Js.VObj [("code", Js.VStr "DEPRECATED")] in
  let w2 := Js.VObj [("message", Js.VStr "slow")] in
  ErrorWrapper.getWarnings
    (Js.VObj [("warning", w1);
              ("result", Js.VObj [("output", Js.VObj [("warning", w2)])])])
  = Js.Ok [w1; w2].
Proof. reflexivity. Qed.

(** X5. [getErrorCode] and [getErrorMessage] never throw and never answer
    [null] or [undefined]; when the envelope holds no error they answer
    ['UNKNOWN_ERROR'] and ['No error message available.']; when it holds
    one, a [code] or [message] the error object lacks is replaced by the
    same defaults. *)
Theorem X5_error_code_and_message_defaults :
  forall response : Js.value,
    exists code message,
      ErrorWrapper.getErrorCode response = Js.Ok code
      /\ ErrorWrapper.getErrorMessage response = Js.Ok message
      /\ code <> Js.VUndefined /\ code <> Js.VNull
      /\ message <> Js.VUndefined /\ message <> Js.VNull
      /\ (ErrorWrapper.hasError response = Js.Ok false ->
          code = Js.VStr "UNKNOWN_ERROR"
          /\ message = Js.VStr "No error message available.")
      /\ (forall fields,
             ErrorWrapper.getError response = Js.Ok (Js.VObj fields) ->
             code = Js.nullish (Js.lookup "code" fields) (Js.VStr "UNKNOWN_ERROR")
             /\ message = Js.nullish (Js.lookup "message" fields)
                            (Js.VStr "No error message available.")).
Proof.
  intros response.
  destruct (somePath_firstAt response ErrorWrapper.errorPaths)
    as (b & e & Hb & He & Hiff & Hbears).
  assert (Hobj : exists fields, e = Js.VObj fields).
  { destruct b.
    - destruct (bearsCodeOrMessage_true e (Hbears eq_refl)) as (fields & -> & _).
      now exists fields.
    - destruct e as [| | | | | |[|f fs]]; try (now eexists);
        destruct Hiff as [_ Hiff]; now specialize (Hiff eq_refl). }
  destruct Hobj as (fields & ->).
  unfold ErrorWrapper.getErrorCode, ErrorWrapper.getErrorMessage,
    ErrorWrapper.getError, ErrorWrapper.hasError.
  rewrite He, Hb. cbn [Js.bind Js.get].
  eexists _, _. split; [reflexivity|]. split; [reflexivity|].
  split; [destruct (Js.lookup "code" fields); discriminate|].
  split; [destruct (Js.lookup "code" fields); discriminate|].
  split; [destruct (Js.lookup "message" fields); discriminate|].
  split; [destruct (Js.lookup "message" fields); discriminate|].
  split.
  - intros Hfalse. injection Hfalse as ->.
    destruct fields as [|f fs]; [split; reflexivity|].
    destruct Hiff as [_ Hiff]. now specialize (Hiff eq_refl).
  - intros fields' H. injection H as <-. split; reflexivity.
Qed.

(* ================================================================== *)
(** * Further properties of the transport layer *)

Section TraceFacts.
Import Interface RetrySchedule.

Lemma backoffs_app (t1 t2 : list event) :
  backoffs (t1 ++ t2) = (backoffs t1 ++ backoffs t2)%list.
Proof. apply flat_map_app. Qed.

Lemma requests_app (t1 t2 : list event) :
  requests (t1 ++ t2) = (requests t1 + requests t2)%nat.
Proof. unfold requests. now rewrite filter_app, length_app. Qed.

Lemma backoffs_failedPrefix (d : Z) (k : nat) :
  forall a, backoffs (failedPrefix d a k)
            = map (fun i => 2 ^ (a + Z.of_nat i) * 1000) (seq 0 k).
Proof.
  induction k as [|k IH]; intros a; [reflexivity|].
  cbn [failedPrefix backoffs flat_map app seq map].
  rewrite Z.add_0_r. f_equal.
  change (flat_map _ (failedPrefix d (a + 1) k))
    with (backoffs (failedPrefix d (a + 1) k)).
  rewrite IH, <- seq_shift, map_map. apply map_ext.
  intros i. do 2 f_equal. lia.
Qed.

Lemma requests_failedPrefix (d : Z) (k : nat) :
  forall a, requests (failedPrefix d a k) = k.
Proof.
  induction k as [|k IH]; intros a; [reflexivity|].
  cbn [failedPrefix].
  change (requests (Request a d :: Backoff (2 ^ a * 1000)
                      :: failedPrefix d (a + 1) k))
    with (S (requests (failedPrefix d (a + 1) k))).
  now rewrite IH.
Qed.

End TraceFacts.

Section ScheduleFacts.
Import Js Exceptions Interface RetrySchedule.

Variable cfg : connectionSettings.
Variable fetch : Z -> completion exception Response.
Variable path : string.
Variable timeout : value.

Let deadline := timeoutMs cfg path timeout.

(** [k] transport failures in a row, each with attempts left, are [k]
    requests and [k] sleeps, and the loop goes on. *)
Lemma attempts_failures (k : nat) :
  forall attempt remaining trace,
    (forall i, (i < k)%nat ->
               exists cause, transportFails fetch (attempt + Z.of_nat i) cause) ->
    attempt + Z.of_nat k <= retries cfg ->
    attempts cfg fetch path timeout (k + remaining) attempt trace
    = attempts cfg fetch path timeout remaining (attempt + Z.of_nat k)
        (trace ++ failedPrefix deadline attempt k).
Proof.
  induction k as [|k IH]; intros attempt remaining trace Hfail Hle.
  - cbn. now rewrite Z.add_0_r, app_nil_r.
  - destruct (Hfail 0%nat ltac:(lia)) as [cause Hc].
    rewrite Z.add_0_r in Hc.
    cbn [Nat.add].
    rewrite (attempts_retry _ _ _ _ _ _ _ cause);
      [| unfold tryOnce; destruct Hc as (-> & _); reflexivity
       | apply Hc | apply Hc | lia].
    rewrite IH.
    + cbn [failedPrefix]. rewrite <- !app_assoc. cbn [app].
      f_equal. lia.
    + intros i Hi. destruct (Hfail (S i) ltac:(lia)) as [c Hci].
      exists c. now replace (attempt + 1 + Z.of_nat i)
        with (attempt + Z.of_nat (S i)) by lia.
    + lia.
Qed.

(** The run up to its [j]-th attempt, when the [j - 1] attempts before it
    were transport failures. *)
Lemma sendRequest_decisive (j : nat) :
  (forall i, (1 <= i < j)%nat ->
             exists cause, transportFails fetch (Z.of_nat i) cause) ->
  (1 <= j)%nat -> Z.of_nat j <= retries cfg ->
  sendRequest cfg fetch path timeout
  = attempts cfg fetch path timeout (S (Z.to_nat (retries cfg) - j))
      (Z.of_nat j) (failedPrefix deadline 1 (j - 1)).
Proof.
  intros Hfail Hj Hle. unfold sendRequest.
  replace (Z.to_nat (retries cfg))
    with ((j - 1) + S (Z.to_nat (retries cfg) - j))%nat at 1 by lia.
  rewrite attempts_failures.
  - cbn [app]. f_equal. lia.
  - intros i Hi. destruct (Hfail (S i) ltac:(lia)) as [c Hc].
    exists c. now replace (1 + Z.of_nat i) with (Z.of_nat (S i)) by lia.
  - lia.
Qed.

(** Whatever the network does, a run is a schedule of at most [retries]
    requests. *)
Lemma attempts_schedule (remaining : nat) :
  forall attempt trace,
    retries cfg < attempt + Z.of_nat remaining ->
    exists k,
      (k <= remaining)%nat
      /\ (k = 0%nat -> remaining = 0%nat)
      /\ fst (attempts cfg fetch path timeout remaining attempt trace)
         = (trace ++ match k with
                     | O => []
                     | S k' => failedPrefix deadline attempt k'
                               ++ [Request (attempt + Z.of_nat k') deadline]
                     end)%list.
Proof.
  induction remaining as [|remaining IH]; intros attempt trace Hbound.
  - exists 0%nat. cbn. rewrite app_nil_r. auto.
  - cbn [attempts]. fold deadline.
    assert (Hone : exists k,
               (k <= S remaining)%nat /\ (k = 0%nat -> S remaining = 0%nat)
               /\ (trace ++ [Request attempt deadline])%list
                  = (trace ++ match k with
                              | O => []
                              | S k' => failedPrefix deadline attempt k'
                                        ++ [Request (attempt + Z.of_nat k') deadline]
                              end)%list).
    { exists 1%nat. cbn. rewrite Z.add_0_r. repeat split; [lia|discriminate]. }
    destruct (tryOnce fetch attempt) as [result|error]; [exact Hone|].
    destruct (instanceof error APIError); [exact Hone|].
    destruct (instanceof error SyntaxError); [exact Hone|].
    destruct (Z.ltb_spec attempt (retries cfg)) as [Hlt|Hge]; [|exact Hone].
    destruct (IH (attempt + 1)
                 ((trace ++ [Request attempt deadline])
                    ++ [Backoff (2 ^ attempt * 1000)])%list)
      as (k & Hk & Hzero & Htrace); [lia|].
    destruct k as [|k'].
    + specialize (Hzero eq_refl). lia.
    + exists (S (S k')). split; [lia|]. split; [discriminate|].
      rewrite Htrace. cbn [failedPrefix]. rewrite <- !app_assoc. cbn [app].
      now replace (attempt + Z.of_nat (S k')) with (attempt + 1 + Z.of_nat k') by lia.
Qed.

End ScheduleFacts.

Section DecisiveAttempt.
Import Js Exceptions Interface RetrySchedule.

Lemma attempts_SyntaxError cfg fetch path timeout remaining attempt trace error :
  tryOnce fetch attempt = Throw error ->
  cls error = SyntaxError ->
  attempts cfg fetch path timeout (S remaining) attempt trace
  = ((trace ++ [Request attempt (timeoutMs cfg path timeout)])%list,
     Throw (mkException InvalidJSONResponseError (message error))).
Proof.
  intros Htry Hcls. cbn [attempts]. rewrite Htry.
  unfold instanceof. rewrite Hcls. reflexivity.
Qed.

Lemma schedule_decisive (d : Z) (j : nat) :
  (1 <= j)%nat ->
  (failedPrefix d 1 (j - 1) ++ [Request (Z.of_nat j) d])%list = schedule d j.
Proof.
  intros Hj. destruct j as [|k]; [lia|].
  cbn [schedule]. rewrite Nat.sub_succ, Nat.sub_0_r.
  now replace (Z.of_nat (S k)) with (1 + Z.of_nat k) by lia.
Qed.

(** The classifier's throw for a code of the table. *)
Lemma raiseForResponse_known body code message c :
  ErrorWrapper.hasError body = Ok true ->
  ErrorWrapper.getErrorCode body = Ok code ->
  ErrorWrapper.getErrorMessage body = Ok message ->
  ExceptionHandler.lookupClass (to_string code) ExceptionHandler.ERROR_CODE_MAP
  = Some c ->
  ExceptionHandler.raiseForResponse body
  = Throw (mkException c ("[" ++ to_string code ++ "] " ++ to_string message)).
Proof.
  intros Herr Hcode Hmsg Hclass. unfold ExceptionHandler.raiseForResponse.
  rewrite Herr, Hcode, Hmsg. cbn [ExceptionHandler.liftTypeError bind].
  now rewrite Hclass.
Qed.

End DecisiveAttempt.

(** X6. Whatever the network answers, a run of [sendRequest] sends at
    most [retries] requests, numbered from 1, each with the same deadline;
    between two requests it sleeps once, [2 ** attempt] seconds after the
    attempt that failed; with [retries <= 0] it sends nothing and fails
    with [NetworkConnectionError]. *)
Theorem X6_sendRequest_schedule :
  forall cfg fetch path timeout,
    exists m,
      (m <= Z.to_nat (Interface.retries cfg))%nat
      /\ fst (Interface.sendRequest cfg fetch path timeout)
         = RetrySchedule.schedule (Interface.timeoutMs cfg path timeout) m
      /\ Interface.requests (fst (Interface.sendRequest cfg fetch path timeout)) = m
      /\ Interface.backoffs (fst (Interface.sendRequest cfg fetch path timeout))
         = map (fun i => 2 ^ Z.of_nat i * 1000) (seq 1 (m - 1))
      /\ (Interface.retries cfg <= 0 ->
          Interface.sendRequest cfg fetch path timeout
          = ([], Js.Throw (Exceptions.mkException Exceptions.NetworkConnectionError
                             "Request failed without exception."))).
Proof.
  intros cfg fetch path timeout.
  destruct (attempts_schedule cfg fetch path timeout
              (Z.to_nat (Interface.retries cfg)) 1 [])
    as (m & Hm & _ & Htrace); [lia|].
  exists m. unfold Interface.sendRequest. rewrite Htrace. cbn [app].
  assert (Hshape : match m with
                   | O => []
                   | S k' =>
                       (RetrySchedule.failedPrefix
                          (Interface.timeoutMs cfg path timeout) 1 k'
                        ++ [Interface.Request (1 + Z.of_nat k')
                              (Interface.timeoutMs cfg path timeout)])%list
                   end
                   = RetrySchedule.schedule (Interface.timeoutMs cfg path timeout) m)
    by now destruct m.
  rewrite Hshape.
  split; [exact Hm|]. split; [reflexivity|]. split; [|split].
  - destruct m as [|k]; [reflexivity|]. cbn [RetrySchedule.schedule].
    rewrite requests_app, requests_failedPrefix. cbn. lia.
  - destruct m as [|k]; [reflexivity|]. cbn [RetrySchedule.schedule].
    rewrite backoffs_app, backoffs_failedPrefix. cbn [Interface.backoffs flat_map].
    rewrite app_nil_r, Nat.sub_succ, Nat.sub_0_r, <- seq_shift, map_map.
    apply map_ext. intros i. do 2 f_equal. lia.
  - intros Hle. replace (Z.to_nat (Interface.retries cfg)) with 0%nat by lia.
    reflexivity.
Qed.

(** X7. With [retries = n >= 1] and a transport that fails at every one
    of the [n] attempts, [sendRequest] sends exactly [n] requests with
    [n - 1] sleeps between them and raises [NetworkConnectionError], whose
    message embeds the cause of the last attempt. *)
Theorem X7_sendRequest_exhausted :
  forall cfg fetch path timeout (n : nat) last,
    (1 <= n)%nat ->
    Interface.retries cfg = Z.of_nat n ->
    (forall i, (1 <= i < n)%nat ->
               exists cause, Interface.transportFails fetch (Z.of_nat i) cause) ->
    Interface.transportFails fetch (Z.of_nat n) last ->
    Interface.sendRequest cfg fetch path timeout
    = (RetrySchedule.schedule (Interface.timeoutMs cfg path timeout) n,
       Js.Throw (Exceptions.mkException Exceptions.NetworkConnectionError
                   ("All " ++ Js.string_of_Z (Z.of_nat n)
                    ++ " retries failed! Error: " ++ Exceptions.message last))).
Proof.
  intros cfg fetch path timeout n last Hn Hretries Hfail Hlast.
  rewrite (sendRequest_decisive cfg fetch path timeout n Hfail Hn) by lia.
  rewrite (attempts_exhausted _ _ _ _ _ _ _ last);
    [| now apply tryOnce_transportFails | apply Hlast | apply Hlast | lia].
  now rewrite schedule_decisive, Hretries by exact Hn.
Qed.

Lemma X7_sendRequest_exhausted_witness :
  let down := Exceptions.mkException Exceptions.TypeError "fetch failed" in
  let fetch := fun _ : Z => @Js.Throw _ Interface.Response down in
  let cfg := Interface.mkSettings 4 30000 300000 in
  Interface.sendRequest cfg fetch "/convert/status" Js.VUndefined
  = (RetrySchedule.schedule (Interface.timeoutMs cfg "/convert/status" Js.VUndefined) 4,
     Js.Throw (Exceptions.mkException Exceptions.NetworkConnectionError
                 ("All " ++ Js.string_of_Z (Z.of_nat 4)
                  ++ " retries failed! Error: " ++ Exceptions.message down))).
Proof.
  intros down fetch cfg.
  apply (X7_sendRequest_exhausted cfg fetch "/convert/status" Js.VUndefined 4 down).
  - lia.
  - reflexivity.
  - intros i _. exists down. split; [reflexivity|split; reflexivity].
  - split; [reflexivity|split; reflexivity].
Defined.

(** X8. When the first [j - 1] attempts are transport failures and
    attempt [j <= retries] succeeds, [sendRequest] returns that attempt's
    result after exactly [j] requests and the [j - 1] sleeps between
    them. *)
Theorem X8_sendRequest_first_success :
  forall cfg fetch path timeout (j : nat) result,
    (1 <= j)%nat ->
    Z.of_nat j <= Interface.retries cfg ->
    (forall i, (1 <= i < j)%nat ->
               exists cause, Interface.transportFails fetch (Z.of_nat i) cause) ->
    Interface.succeeds fetch (Z.of_nat j) result ->
    Interface.sendRequest cfg fetch path timeout
    = (RetrySchedule.schedule (Interface.timeoutMs cfg path timeout) j,
       Js.Ok result).
Proof.
  intros cfg fetch path timeout j result Hj Hle Hfail Hok.
  rewrite (sendRequest_decisive cfg fetch path timeout j Hfail Hj Hle).
  rewrite (attempts_success _ _ _ _ _ _ _ result) by now apply tryOnce_succeeds.
  now rewrite schedule_decisive by exact Hj.
Qed.

Lemma X8_sendRequest_first_success_witness :
  let down := Exceptions.mkException Exceptions.DOMException "aborted" in
  let response := Interface.mkResponse (Some "application/octet-stream")
                    (Js.Throw (Exceptions.mkException Exceptions.SyntaxError "")) in
  let fetch := fun attempt : Z =>
    if attempt <? 4 then Js.Throw down else Js.Ok response in
  let cfg := Interface.mkSettings 5 30000 300000 in
  Interface.sendRequest cfg fetch "/download/url/get" Js.VUndefined
  = (RetrySchedule.schedule
       (Interface.timeoutMs cfg "/download/url/get" Js.VUndefined) 4,
     Js.Ok (Interface.Raw response)).
Proof.
  intros down response fetch cfg.
  apply (X8_sendRequest_first_success cfg fetch "/download/url/get"
           Js.VUndefined 4 (Interface.Raw response)).
  - lia.
  - cbn. lia.
  - intros i Hi. exists down. split; [|split; reflexivity].
    unfold fetch. destruct (Z.ltb_spec (Z.of_nat i) 4); [reflexivity|lia].
  - exists response. split; [reflexivity|]. left. split; reflexivity.
Defined.

(** X9. A JSON response whose body does not decode ([response.json()]
    rejects with a [SyntaxError]) ends [sendRequest] at that attempt with
    [InvalidJSONResponseError] carrying the decoder's message: no further
    request and no sleep follow, whatever attempts are left. *)
Theorem X9_sendRequest_invalid_json :
  forall cfg fetch path timeout (j : nat) response error,
    (1 <= j)%nat ->
    Z.of_nat j <= Interface.retries cfg ->
    (forall i, (1 <= i < j)%nat ->
               exists cause, Interface.transportFails fetch (Z.of_nat i) cause) ->
    fetch (Z.of_nat j) = Js.Ok response ->
    Interface.includes "application/json"
      (match Interface.contentType response with Some t => t | None => "" end)
    = true ->
    Interface.json response = Js.Throw error ->
    Exceptions.cls error = Exceptions.SyntaxError ->
    Interface.sendRequest cfg fetch path timeout
    = (RetrySchedule.schedule (Interface.timeoutMs cfg path timeout) j,
       Js.Throw (Exceptions.mkException Exceptions.InvalidJSONResponseError
                   (Exceptions.message error))).
Proof.
  intros cfg fetch path timeout j response error Hj Hle Hfail Hfetch Hjson Hbody Hcls.
  rewrite (sendRequest_decisive cfg fetch path timeout j Hfail Hj Hle).
  rewrite (attempts_SyntaxError _ _ _ _ _ _ _ error).
  - now rewrite schedule_decisive by exact Hj.
  - unfold Interface.tryOnce. rewrite Hfetch. cbn [Js.bind].
    now rewrite Hjson, Hbody.
  - exact Hcls.
Qed.

Lemma X9_sendRequest_invalid_json_witness :
  let bad := Exceptions.mkException Exceptions.SyntaxError
               "Unexpected token < in JSON at position 0" in
  let response := Interface.mkResponse (Some "application/json; charset=utf-8")
                    (Js.Throw bad) in
  let fetch := fun _ : Z => Js.Ok response in
  let cfg := Interface.DEFAULT_CONFIG in
  Interface.sendRequest cfg fetch "/convert/file" Js.VUndefined
  = (RetrySchedule.schedule (Interface.timeoutMs cfg "/convert/file" Js.VUndefined) 1,
     Js.Throw (Exceptions.mkException Exceptions.InvalidJSONResponseError
                 (Exceptions.message bad))).
Proof.
  intros bad response fetch cfg.
  apply (X9_sendRequest_invalid_json cfg fetch "/convert/file" Js.VUndefined
           1 response bad).
  - lia.
  - cbn. lia.
  - intros i Hi. lia.
  - reflexivity.
  - reflexivity.
  - reflexivity.
  - reflexivity.
Defined.

(** X10. A JSON response that reports an error whose code and message
    are strings, the code being a key of [ERROR_CODE_MAP], ends
    [sendRequest] at the attempt that received it, with the mapped class
    and the message "[code] message": no further request and no sleep
    follow, also after earlier transport failures. *)
Theorem X10_sendRequest_known_code_terminal :
  forall cfg fetch path timeout (j : nat) response body (code message : string) c,
    (1 <= j)%nat ->
    Z.of_nat j <= Interface.retries cfg ->
    (forall i, (1 <= i < j)%nat ->
               exists cause, Interface.transportFails fetch (Z.of_nat i) cause) ->
    fetch (Z.of_nat j) = Js.Ok response ->
    Interface.includes "application/json"
      (match Interface.contentType response with Some t => t | None => "" end)
    = true ->
    Interface.json response = Js.Ok body ->
    ErrorWrapper.hasError body = Js.Ok true ->
    ErrorWrapper.getErrorCode body = Js.Ok (Js.VStr code) ->
    ErrorWrapper.getErrorMessage body = Js.Ok (Js.VStr message) ->
    ExceptionHandler.lookupClass code ExceptionHandler.ERROR_CODE_MAP = Some c ->
    Interface.sendRequest cfg fetch path timeout
    = (RetrySchedule.schedule (Interface.timeoutMs cfg path timeout) j,
       Js.Throw (Exceptions.mkException c ("[" ++ code ++ "] " ++ message))).
Proof.
  intros cfg fetch path timeout j response body code message c
         Hj Hle Hfail Hfetch Hjson Hbody Herr Hcode Hmsg Hclass.
  rewrite (sendRequest_decisive cfg fetch path timeout j Hfail Hj Hle).
  rewrite (attempts_APIError _ _ _ _ _ _ _
             (Exceptions.mkException c ("[" ++ code ++ "] " ++ message))).
  - now rewrite schedule_decisive by exact Hj.
  - unfold Interface.tryOnce. rewrite Hfetch. cbn [Js.bind].
    rewrite Hjson, Hbody. cbn [Js.bind].
    now rewrite (raiseForResponse_known body (Js.VStr code) (Js.VStr message) c).
  - unfold Exceptions.instanceof. cbn [Exceptions.cls].
    now apply (ERROR_CODE_MAP_APIError code).
Qed.

Lemma X10_sendRequest_known_code_terminal_witness :
  let down := Exceptions.mkException Exceptions.TypeError "fetch failed" in
  let body :=
    Js.VObj [("result",
              Js.VObj [("error", Js.VObj [("code", Js.VStr "EMPTY_FILE");
                                          ("message", Js.VStr "no bytes")])])] in
  let response := Interface.mkResponse (Some "application/json") (Js.Ok body) in
  let fetch := fun attempt : Z =>
    if attempt <? 2 then Js.Throw down else Js.Ok response in
  let cfg := Interface.DEFAULT_CONFIG in
  Interface.sendRequest cfg fetch "/upload/file" Js.VUndefined
  = (RetrySchedule.schedule (Interface.timeoutMs cfg "/upload/file" Js.VUndefined) 2,
     Js.Throw (Exceptions.mkException Exceptions.EmptyFileError
                 ("[" ++ "EMPTY_FILE" ++ "] " ++ "no bytes"))).
Proof.
  intros down body response fetch cfg.
  apply (X10_sendRequest_known_code_terminal cfg fetch "/upload/file"
           Js.VUndefined 2 response body "EMPTY_FILE" "no bytes"
           Exceptions.EmptyFileError).
  - lia.
  - cbn. lia.
  - intros i Hi. exists down. assert (i = 1)%nat as -> by lia.
    split; [reflexivity|split; reflexivity].
  - reflexivity.
  - reflexivity.
  - reflexivity.
  - reflexivity.
  - reflexivity.
  - reflexivity.
  - reflexivity.
Defined.

(* ================================================================== *)
(** * Further properties of the exception handler *)

Section ExceptionHandlerFacts.
Import Js Exceptions ExceptionHandler.

(** A code of the table is the first entry that carries its class. *)
Lemma lookupClass_find (code : string) (c : class) :
  lookupClass code ERROR_CODE_MAP = Some c ->
  find (fun entry => class_eqb (snd entry) c) ERROR_CODE_MAP = Some (code, c).
Proof.
  unfold ERROR_CODE_MAP. cbn [lookupClass].
  repeat match goal with
         | |- (if String.eqb ?k code then _ else _) = _ -> _ =>
             destruct (String.eqb_spec k code) as [<-|_]
         end;
    intros H; try discriminate; injection H as <-; reflexivity.
Qed.

Lemma getWarnings_when_none (response : value) :
  ErrorWrapper.hasWarning response = Ok false ->
  ErrorWrapper.getWarnings response = Ok [].
Proof.
  intros Hno.
  destruct (collectAt_hits response ErrorWrapper.warningPaths)
    as (ws & Hc & Hs & _).
  unfold ErrorWrapper.hasWarning in Hno. rewrite Hs in Hno.
  unfold ErrorWrapper.getWarnings. rewrite Hc.
  destruct ws; [reflexivity|discriminate].
Qed.

(** [getError] always answers an object. *)
Lemma getError_object (response : value) :
  exists fields, ErrorWrapper.getError response = Ok (VObj fields).
Proof.
  destruct (somePath_firstAt response ErrorWrapper.errorPaths)
    as (b & e & Hb & He & Hiff & Hbears).
  unfold ErrorWrapper.getError. rewrite He. destruct b.
  - destruct (bearsCodeOrMessage_true e (Hbears eq_refl)) as (fields & -> & _).
    now exists fields.
  - destruct e as [| | | | | |[|f fs]]; try (now eexists);
      destruct Hiff as [_ Hiff]; now specialize (Hiff eq_refl).
Qed.

Lemma ERROR_CODE_MAP_APIException (code : string) (c : class) :
  lookupClass code ERROR_CODE_MAP = Some c ->
  inherits 5 c APIException = true.
Proof.
  unfold ERROR_CODE_MAP. cbn [lookupClass].
  repeat match goal with
         | |- (if ?b then _ else _) = _ -> _ => destruct b
         end;
    intros H; try discriminate; injection H as <-; reflexivity.
Qed.

End ExceptionHandlerFacts.

(** X11. [raiseForResponse] returns normally exactly when the envelope
    holds no error, and then hands back the warnings [getWarnings] finds;
    otherwise it throws.  When the error's code and message are strings
    and the code is not a name objects inherit ([constructor],
    [toString], ...), what it throws is an instance of [APIException]
    whose message is "[code] message", of the mapped class for a code of
    the table and of class [APIException] itself for any other such
    code. *)
Theorem X11_raiseForResponse_outcome :
  forall response : Js.value,
    (ErrorWrapper.hasError response = Js.Ok false
     /\ exists ws,
          ExceptionHandler.raiseForResponse response = Js.Ok ws
          /\ ErrorWrapper.getWarnings response = Js.Ok ws)
    \/
    (ErrorWrapper.hasError response = Js.Ok true
     /\ (forall ws, ExceptionHandler.raiseForResponse response <> Js.Ok ws)
     /\ forall code message : string,
          ErrorWrapper.getErrorCode response = Js.Ok (Js.VStr code) ->
          ErrorWrapper.getErrorMessage response = Js.Ok (Js.VStr message) ->
          ObjectPrototype.ownOnly code = true ->
          exists error,
            ExceptionHandler.raiseForResponse response = Js.Throw error
            /\ Exceptions.message error = "[" ++ code ++ "] " ++ message
            /\ Exceptions.cls error
               = match ExceptionHandler.lookupClass code
                         ExceptionHandler.ERROR_CODE_MAP with
                 | Some c => c
                 | None => Exceptions.APIException
                 end
            /\ Exceptions.instanceof error Exceptions.APIException = true).
Proof.
  intros response.
  destruct (getError_object response) as (fields & Hobj).
  assert (Hcode : ErrorWrapper.getErrorCode response
                  = Js.Ok (Js.nullish (Js.lookup "code" fields)
                             (Js.VStr "UNKNOWN_ERROR")))
    by (unfold ErrorWrapper.getErrorCode; now rewrite Hobj).
  assert (Hmsg : ErrorWrapper.getErrorMessage response
                 = Js.Ok (Js.nullish (Js.lookup "message" fields)
                            (Js.VStr "No error message available.")))
    by (unfold ErrorWrapper.getErrorMessage; now rewrite Hobj).
  destruct (somePath_firstAt response ErrorWrapper.errorPaths)
    as ([|] & e & Hb & _).
  - right. split; [exact Hb|].
    assert (Hraise : ExceptionHandler.raiseForResponse response
                     = Js.Throw
                         (Exceptions.mkException
                            match ExceptionHandler.lookupClass
                                    (Js.to_string
                                       (Js.nullish (Js.lookup "code" fields)
                                          (Js.VStr "UNKNOWN_ERROR")))
                                    ExceptionHandler.ERROR_CODE_MAP with
                            | Some c => c
                            | None => Exceptions.APIException
                            end
                            ("[" ++ Js.to_string
                                      (Js.nullish (Js.lookup "code" fields)
                                         (Js.VStr "UNKNOWN_ERROR"))
                             ++ "] "
                             ++ Js.to_string
                                  (Js.nullish (Js.lookup "message" fields)
                                     (Js.VStr "No error message available."))))).
    { unfold ExceptionHandler.raiseForResponse.
      unfold ErrorWrapper.hasError. rewrite Hb, Hcode, Hmsg. reflexivity. }
    split; [intros ws; rewrite Hraise; discriminate|].
    intros code message Hc Hm _.
    rewrite Hcode in Hc. injection Hc as Hc.
    rewrite Hmsg in Hm. injection Hm as Hm.
    rewrite Hraise, Hc, Hm. cbn [Js.to_string].
    eexists. split; [reflexivity|].
    cbn [Exceptions.message Exceptions.cls].
    split; [reflexivity|]. split; [reflexivity|].
    unfold Exceptions.instanceof. cbn [Exceptions.cls].
    destruct (ExceptionHandler.lookupClass code ExceptionHandler.ERROR_CODE_MAP)
      as [c|] eqn:Hclass; [|reflexivity].
    exact (ERROR_CODE_MAP_APIException _ _ Hclass).
  - left. split; [exact Hb|].
    unfold ExceptionHandler.raiseForResponse.
    unfold ErrorWrapper.hasError. rewrite Hb.
    cbn [ExceptionHandler.liftTypeError Js.bind].
    destruct (collectAt_hits response ErrorWrapper.warningPaths)
      as (ws & Hc & Hs & _).
    unfold ErrorWrapper.hasWarning, ErrorWrapper.getWarnings.
    rewrite Hs, Hc. cbn [ExceptionHandler.liftTypeError Js.bind].
    exists ws. split; [|reflexivity].
    destruct ws; reflexivity.
Qed.

(** X12. [ERROR_CODE_MAP] gives distinct codes distinct classes, and
    every class it gives descends from [APIError]: the class of a mapped
    error identifies the service code. *)
Theorem X12_ERROR_CODE_MAP_injective :
  forall (code1 code2 : string) (c : Exceptions.class),
    ExceptionHandler.lookupClass code1 ExceptionHandler.ERROR_CODE_MAP = Some c ->
    ExceptionHandler.lookupClass code2 ExceptionHandler.ERROR_CODE_MAP = Some c ->
    code1 = code2
    /\ Exceptions.inherits 5 c Exceptions.APIError = true
    /\ c <> Exceptions.APIError.
Proof.
  intros code1 code2 c H1 H2.
  pose proof (lookupClass_find _ _ H1) as F1.
  pose proof (lookupClass_find _ _ H2) as F2.
  rewrite F1 in F2. split; [congruence|]. split.
  - exact (ERROR_CODE_MAP_APIError _ _ H1).
  - intros ->. clear -F1. vm_compute in F1. discriminate.
Qed.

Lemma X12_ERROR_CODE_MAP_injective_witness :
  "NOT_FOUND" = "NOT_FOUND"
  /\ Exceptions.inherits 5 Exceptions.NotFoundError Exceptions.APIError = true
  /\ Exceptions.NotFoundError <> Exceptions.APIError.
Proof.
  apply (X12_ERROR_CODE_MAP_injective "NOT_FOUND" "NOT_FOUND"
           Exceptions.NotFoundError); reflexivity.
Defined.

(* ================================================================== *)
(** * Further properties of the chunked stream pipeline *)

Section ChunkingFacts.
Import StreamChunker.

Lemma app_same_length (A : Type) (a b x y : list A) :
  List.length a = List.length b ->
  (a ++ x = b ++ y)%list -> a = b /\ x = y.
Proof.
  revert b. induction a as [|h a IH]; intros [|k b] Hlen Heq;
    try discriminate; cbn in *.
  - auto.
  - injection Heq as -> Heq. destruct (IH b) as [-> ->]; auto.
Qed.

(** A byte sequence has one cutting into non-empty chunks of at most
    [size] bytes of which all but the last are full. *)
Lemma chunking_unique (size : Z) :
  forall l1 l2 : list bytes,
    List.concat l1 = List.concat l2 ->
    (forall i, (S i < List.length l1)%nat ->
               Z.of_nat (List.length (nth i l1 [])) = size) ->
    Forall (fun chunk => 0 < Z.of_nat (List.length chunk) <= size) l1 ->
    (forall i, (S i < List.length l2)%nat ->
               Z.of_nat (List.length (nth i l2 [])) = size) ->
    Forall (fun chunk => 0 < Z.of_nat (List.length chunk) <= size) l2 ->
    l1 = l2.
Proof.
  induction l1 as [|a l1 IH]; intros [|b l2] Hcat Hfull1 Hne1 Hfull2 Hne2.
  - reflexivity.
  - inversion Hne2 as [|? ? Hb _]; subst. cbn in Hcat.
    symmetry in Hcat. apply app_eq_nil in Hcat as [-> _]. cbn in Hb. lia.
  - inversion Hne1 as [|? ? Ha _]; subst. cbn in Hcat.
    apply app_eq_nil in Hcat as [-> _]. cbn in Ha. lia.
  - inversion Hne1 as [|? ? Ha Hne1']; subst.
    inversion Hne2 as [|? ? Hb Hne2']; subst.
    cbn [List.concat] in Hcat.
    assert (Hlen : List.length a = List.length b).
    { destruct l1 as [|a' l1], l2 as [|b' l2].
      - cbn in Hcat. rewrite !app_nil_r in Hcat. now subst.
      - pose proof (Hfull2 0%nat ltac:(cbn; lia)) as Hb0. cbn in Hb0.
        inversion Hne2' as [|? ? Hb' _]; subst.
        apply (f_equal (@List.length _)) in Hcat.
        cbn in Hcat. rewrite !length_app in Hcat. cbn in Hcat. lia.
      - pose proof (Hfull1 0%nat ltac:(cbn; lia)) as Ha0. cbn in Ha0.
        inversion Hne1' as [|? ? Ha' _]; subst.
        apply (f_equal (@List.length _)) in Hcat.
        cbn in Hcat. rewrite !length_app in Hcat. cbn in Hcat. lia.
      - pose proof (Hfull1 0%nat ltac:(cbn; lia)) as Ha0.
        pose proof (Hfull2 0%nat ltac:(cbn; lia)) as Hb0.
        cbn in Ha0, Hb0. lia. }
    destruct (app_same_length _ _ _ _ _ Hlen Hcat) as [-> Htail].
    f_equal. apply IH; auto.
    + intros i Hi. apply (Hfull1 (S i)). cbn. lia.
    + intros i Hi. apply (Hfull2 (S i)). cbn. lia.
Qed.

End ChunkingFacts.

(** X13. The emitted chunks depend on the source's bytes and on the
    chunk size only, not on how the source cut them nor on the stream's
    shape: two finite sources that deliver the same bytes make [process]
    return the same collector, for every chunk size [C > 0]. *)
Theorem X13_chunk_boundaries_independent :
  forall (s1 s2 : StreamChunker.stream) (chunkSize : Z)
         (c : StreamChunker.collector) (fuel : nat),
    0 < chunkSize ->
    StreamChunker.sourceBytes s1 = StreamChunker.sourceBytes s2 ->
    (List.length (StreamChunker.sourceBytes s1) < fuel)%nat ->
    StreamChunker.process fuel s1 chunkSize c
    = StreamChunker.process fuel s2 chunkSize c
    /\ StreamChunker.process fuel s1 chunkSize c <> None.
Proof.
  intros s1 s2 chunkSize c fuel Hpos Hsame Hfuel.
  destruct (process_positive chunkSize Hpos s1)
    as (e1 & Hrun1 & Hcat1 & _ & Hfull1 & Hne1).
  destruct (process_positive chunkSize Hpos s2)
    as (e2 & Hrun2 & Hcat2 & _ & Hfull2 & Hne2).
  assert (e1 = e2) as <-.
  { apply (chunking_unique chunkSize); auto. congruence. }
  rewrite Hrun1 by exact Hfuel.
  rewrite Hrun2 by (rewrite <- Hsame; exact Hfuel).
  split; [reflexivity|discriminate].
Qed.

Lemma X13_chunk_boundaries_independent_witness :
  let s1 := StreamChunker.NodeReadable
              [StreamChunker.NodeBuffer [Byte.x61]; StreamChunker.NodeText "bcde"] in
  let s2 := StreamChunker.BrowserReadable
              [StreamChunker.BrowserText "abc";
               StreamChunker.BrowserArrayBuffer [];
               StreamChunker.BrowserUint8Array [Byte.x64; Byte.x65]] in
  let c := StreamChunker.WritableStream [] in
  StreamChunker.process 6 s1 2 c = StreamChunker.process 6 s2 2 c
  /\ StreamChunker.process 6 s1 2 c <> None.
Proof.
  intros s1 s2 c.
  apply (X13_chunk_boundaries_independent s1 s2 2 c 6).
  - lia.
  - reflexivity.
  - simpl. lia.
Defined.

(** X14. With a chunk size [C > 0], [process] only appends to the
    collector it was given: what the collector held stays in front, the
    collector keeps its kind, and every appended chunk has at least one
    byte and at most [C]. *)
Theorem X14_process_appends_bounded_chunks :
  forall (s : StreamChunker.stream) (chunkSize : Z)
         (c : StreamChunker.collector) (fuel : nat),
    0 < chunkSize ->
    (List.length (StreamChunker.sourceBytes s) < fuel)%nat ->
    exists result emitted,
      StreamChunker.process fuel s chunkSize c = Some result
      /\ StreamChunker.received result
         = (StreamChunker.received c ++ emitted)%list
      /\ StreamChunker.isWritable result = StreamChunker.isWritable c
      /\ Forall (fun chunk =>
                   0 < Z.of_nat (List.length chunk) <= chunkSize) emitted.
Proof.
  intros s chunkSize c fuel Hpos Hfuel.
  destruct (process_positive chunkSize Hpos s)
    as (emitted & Hrun & _ & _ & _ & Hne).
  exists (StreamChunker.emitAll c emitted), emitted.
  split; [now apply Hrun|]. split; [apply received_emitAll|].
  split; [apply isWritable_emitAll|exact Hne].
Qed.

Lemma X14_process_appends_bounded_chunks_witness :
  let s := StreamChunker.NodeReadable [StreamChunker.NodeText "abcde"] in
  let c := StreamChunker.ChunkArray [[Byte.x00]] in
  exists result emitted,
    StreamChunker.process 6 s 2 c = Some result
    /\ StreamChunker.received result
       = (StreamChunker.received c ++ emitted)%list
    /\ StreamChunker.isWritable result = StreamChunker.isWritable c
    /\ Forall (fun chunk => 0 < Z.of_nat (List.length chunk) <= 2) emitted.
Proof.
  intros s c. apply (X14_process_appends_bounded_chunks s 2 c 6).
  - lia.
  - simpl. lia.
Defined.

(* ================================================================== *)
(** * The buffering of uploads *)

Section FileFieldFacts.
Import Js StreamChunker FileField.

Lemma totalLength_from (chunks : list bytes) :
  forall start,
    fold_left (fun sum arr => (sum + List.length arr)%nat) chunks start
    = (start + List.length (List.concat chunks))%nat.
Proof.
  induction chunks as [|chunk chunks IH]; intros start; cbn.
  - lia.
  - rewrite IH, length_app. lia.
Qed.

(** The copy loop fills the part of the buffer that is still blank with
    the chunks that are still to be copied. *)
Lemma copyChunks_fills (chunks : list bytes) :
  forall copied blank,
    List.length blank = List.length (List.concat chunks) ->
    copyChunks chunks (copied ++ blank)%list (List.length copied)
    = Ok (copied ++ List.concat chunks)%list.
Proof.
  induction chunks as [|chunk chunks IH]; intros copied blank Hlen.
  - cbn in *. destruct blank; [reflexivity|discriminate].
  - cbn [copyChunks List.concat] in *. rewrite length_app in Hlen.
    unfold set. rewrite length_app.
    destruct (Nat.leb_spec (List.length copied + List.length chunk)
                (List.length copied + List.length blank)) as [_|Hno]; [|lia].
    cbn [bind].
    rewrite firstn_app, firstn_all, Nat.sub_diag. cbn [firstn].
    rewrite app_nil_r.
    rewrite skipn_app, skipn_all2 by lia. cbn [app].
    replace (List.length copied + List.length chunk - List.length copied)%nat
      with (List.length chunk) by lia.
    replace (copied ++ chunk ++ skipn (List.length chunk) blank)%list
      with ((copied ++ chunk) ++ skipn (List.length chunk) blank)%list
      by now rewrite <- app_assoc.
    replace (List.length copied + List.length chunk)%nat
      with (List.length (copied ++ chunk)%list) by now rewrite length_app.
    rewrite IH by (rewrite length_skipn; lia).
    now rewrite <- app_assoc.
Qed.

Lemma mergeChunks_concat (chunks : list bytes) :
  mergeChunks chunks = Ok (List.concat chunks).
Proof.
  unfold mergeChunks, totalLength. rewrite totalLength_from. cbn [Nat.add].
  apply (copyChunks_fills chunks []). apply repeat_length.
Qed.

End FileFieldFacts.

(** X15. The buffer [request] builds for a file field holds exactly the
    bytes of the source stream, in order, for every chunk size [C > 0] and
    both stream shapes: chunking into the array and merging the array
    undo each other, and the merge never writes out of bounds. *)
Theorem X15_bufferFile_round_trip :
  forall (s : StreamChunker.stream) (chunkSize : Z) (fuel : nat),
    0 < chunkSize ->
    (List.length (StreamChunker.sourceBytes s) < fuel)%nat ->
    FileField.bufferFile fuel s chunkSize
    = Some (Js.Ok (StreamChunker.sourceBytes s)).
Proof.
  intros s chunkSize fuel Hpos Hfuel.
  destruct (process_positive chunkSize Hpos s) as (emitted & Hrun & Hcat & _).
  unfold FileField.bufferFile. rewrite Hrun by exact Hfuel.
  rewrite received_emitAll. cbn [StreamChunker.received app].
  now rewrite mergeChunks_concat, Hcat.
Qed.

Lemma X15_bufferFile_round_trip_witness :
  let s := StreamChunker.NodeReadable
             [StreamChunker.NodeText "%PDF"; StreamChunker.NodeBuffer [Byte.xff]] in
  FileField.bufferFile 6 s 4096 = Some (Js.Ok (StreamChunker.sourceBytes s)).
Proof.
  intros s. apply (X15_bufferFile_round_trip s 4096 6).
  - lia.
  - simpl. lia.
Defined.

(* ================================================================== *)
(** * Credentials *)

Section CredentialFacts.
Import Misc.

Lemma trim_nonempty (s : string) : trim s <> EmptyString -> s <> EmptyString.
Proof. intros H ->. now apply H. Qed.

End CredentialFacts.

(** X16. A credential that was constructed is valid and holds the two
    strings exactly as they were given (not trimmed): both arguments were
    strings that are not empty once trimmed, so a non-string, empty or
    blank argument is never accepted. *)
Theorem X16_credential_constructed_is_valid :
  forall (app token : Js.value) (c : Credential.credential),
    Credential.new app token = Js.Ok c ->
    app = Js.VStr (Credential._app c)
    /\ token = Js.VStr (Credential._token c)
    /\ Misc.trim (Credential._app c) <> EmptyString
    /\ Misc.trim (Credential._token c) <> EmptyString
    /\ Credential.isValid c = true.
Proof.
  intros app token c. unfold Credential.new.
  destruct app as [| | | |a| |]; try discriminate.
  destruct (Misc.trim a) eqn:Ha; [discriminate|].
  destruct token as [| | | |t| |]; try discriminate.
  destruct (Misc.trim t) eqn:Ht; [discriminate|].
  intros H. injection H as <-. cbn [Credential._app Credential._token].
  rewrite Ha, Ht. repeat split; try discriminate.
  unfold Credential.isValid. cbn [Credential._app Credential._token].
  assert (a <> EmptyString) by (apply trim_nonempty; rewrite Ha; discriminate).
  assert (t <> EmptyString) by (apply trim_nonempty; rewrite Ht; discriminate).
  destruct a, t; try congruence. reflexivity.
Qed.

Lemma X16_credential_constructed_is_valid_witness :
  Js.VStr " free " = Js.VStr (Credential._app (Credential.mkCredential " free " "FREE-TOKEN"))
  /\ Js.VStr "FREE-TOKEN"
     = Js.VStr (Credential._token (Credential.mkCredential " free " "FREE-TOKEN"))
  /\ Misc.trim (Credential._app (Credential.mkCredential " free " "FREE-TOKEN"))
     <> EmptyString
  /\ Misc.trim (Credential._token (Credential.mkCredential " free " "FREE-TOKEN"))
     <> EmptyString
  /\ Credential.isValid (Credential.mkCredential " free " "FREE-TOKEN") = true.
Proof.
  apply (X16_credential_constructed_is_valid (Js.VStr " free ") (Js.VStr "FREE-TOKEN")).
  reflexivity.
Defined.

(** Blank and non-string arguments are rejected, the application ID
    first. *)
Example credential_rejected :
  Credential.new (Js.VStr "   ") (Js.VStr "")
  = Js.Throw (Exceptions.mkException Exceptions.Error
                "Application ID must be a non-empty string")
  /\ Credential.new (Js.VStr "free") (Js.VStr " ")
     = Js.Throw (Exceptions.mkException Exceptions.Error
                   "Security token must be a non-empty string")
  /\ Credential.new (Js.VStr "free") Js.VUndefined
     = Js.Throw (Exceptions.mkException Exceptions.Error
                   "Security token must be a non-empty string").
Proof. repeat split. Qed.

(* ================================================================== *)
(** * The configuration store *)

Section ConfigFacts.
Import Js Config.

Context {A : Type}.

Lemma find_assign_same (key : string) (x : A) (obj : list (string * A)) :
  find key (assign key x obj) = Some x.
Proof.
  induction obj as [|[k y] obj IH]; cbn.
  - now rewrite String.eqb_refl.
  - destruct (String.eqb k key) eqn:E; cbn; now rewrite E.
Qed.

Lemma find_assign_other (key key' : string) (x : A) (obj : list (string * A)) :
  key' <> key -> find key' (assign key x obj) = find key' obj.
Proof.
  intros Hne. induction obj as [|[k y] obj IH]; cbn.
  - destruct (String.eqb_spec key key'); congruence.
  - destruct (String.eqb_spec k key) as [->|Hk]; cbn.
    + destruct (String.eqb_spec key key'); congruence.
    + now rewrite IH.
Qed.

Lemma find_absent (key : string) (obj : list (string * A)) :
  ~ In key (map fst obj) -> find key obj = None.
Proof.
  induction obj as [|[k y] obj IH]; cbn; [reflexivity|]. intros Hnotin.
  destruct (String.eqb_spec k key) as [->|_]; [tauto|].
  apply IH. tauto.
Qed.

End ConfigFacts.

Section ConfigMerge.
Import Js Config.

Lemma find_objectAssign (key : string) (source : section) :
  NoDup (map fst source) ->
  forall target,
    find key (objectAssign target source)
    = match find key source with
      | Some x => Some x
      | None => find key target
      end.
Proof.
  unfold objectAssign.
  induction source as [|[k x] source IH]; intros Hnd target; [reflexivity|].
  cbn [map fst] in Hnd. inversion Hnd as [|? ? Hnotin Hnd']; subst.
  cbn [fold_left fst snd find]. rewrite IH by exact Hnd'.
  destruct (String.eqb_spec k key) as [->|Hk].
  - now rewrite (find_absent key source Hnotin), find_assign_same.
  - now rewrite find_assign_other by congruence.
Qed.

Lemma find_update (name : string) (overrides : store) :
  NoDup (map fst overrides) ->
  forall current,
    find name (update current overrides)
    = match find name overrides with
      | Some values =>
          Some (objectAssign
                  (match find name current with
                   | Some old => old
                   | None => []
                   end) values)
      | None => find name current
      end.
Proof.
  unfold update.
  induction overrides as [|[k values] overrides IH]; intros Hnd current;
    [reflexivity|].
  cbn [map fst] in Hnd. inversion Hnd as [|? ? Hnotin Hnd']; subst.
  cbn [fold_left fst snd find]. rewrite IH by exact Hnd'.
  destruct (String.eqb_spec k name) as [->|Hk].
  - now rewrite (find_absent name overrides Hnotin), find_assign_same.
  - now rewrite find_assign_other by congruence.
Qed.

End ConfigMerge.

(** X17. For stores whose section names and keys are none of the names
    objects inherit: after [Config.update(overrides)], [Config.get]
    answers the value [overrides] gives for every section and key it
    mentions, whatever was stored or is the default, and never the
    fallback. *)
Theorem X17_config_get_after_update :
  forall (stored overrides : Config.store) (section key : string)
         (x fallback : Js.value),
    ObjectPrototype.ownOnlyStore stored ->
    ObjectPrototype.ownOnlyStore overrides ->
    Config.wellFormed overrides ->
    Config.find2 overrides section key = Some x ->
    Config.get (Config.update stored overrides) section key fallback = x.
Proof.
  intros stored overrides section key x fallback _ _ [Hnd Hall] Hfind.
  unfold Config.find2 in Hfind. unfold Config.get.
  rewrite find_update by exact Hnd.
  destruct (Config.find section overrides) as [values|] eqn:Hsec;
    [|discriminate].
  assert (Hvalues : NoDup (map fst values)).
  { clear -Hall Hsec. induction overrides as [|[k v] overrides IH];
      [discriminate|].
    inversion Hall as [|? ? Hv Hrest]; subst. cbn in Hsec.
    destruct (String.eqb k section); [now injection Hsec as <-|auto]. }
  now rewrite find_objectAssign, Hfind by exact Hvalues.
Qed.

Lemma X17_config_get_after_update_witness :
  Config.get
    (Config.update [("api", [("app", Js.VStr "old")])]
       [("connectionSettings", [("retries", Js.VNum 2)]);
        ("api", [("token", Js.VStr "T"); ("app", Js.VStr "mine")])])
    "api" "app" Js.VNull
  = Js.VStr "mine".
Proof.
  apply X17_config_get_after_update.
  - repeat constructor.
  - repeat constructor.
  - split.
    + repeat constructor; cbn; intuition discriminate.
    + repeat constructor; cbn; intuition discriminate.
  - reflexivity.
Defined.

(** X18. For stores whose section names and keys are none of the names
    objects inherit, and a section and key that are none either:
    [Config.update(overrides)] changes nothing else; for a section and key
    that [overrides] does not mention, [Config.get] answers what it
    answered before, whether that was an earlier override, the default or
    the fallback. *)
Theorem X18_config_update_frame :
  forall (stored overrides : Config.store) (section key : string)
         (fallback : Js.value),
    ObjectPrototype.ownOnlyStore stored ->
    ObjectPrototype.ownOnlyStore overrides ->
    ObjectPrototype.ownOnly section = true ->
    ObjectPrototype.ownOnly key = true ->
    Config.wellFormed overrides ->
    Config.find2 overrides section key = None ->
    Config.get (Config.update stored overrides) section key fallback
    = Config.get stored section key fallback.
Proof.
  intros stored overrides section key fallback _ _ _ _ [Hnd Hall] Hfind.
  unfold Config.find2 in Hfind. unfold Config.get.
  rewrite find_update by exact Hnd.
  destruct (Config.find section overrides) as [values|] eqn:Hsec;
    [|reflexivity].
  assert (Hvalues : NoDup (map fst values)).
  { clear -Hall Hsec. induction overrides as [|[k v] overrides IH];
      [discriminate|].
    inversion Hall as [|? ? Hv Hrest]; subst. cbn in Hsec.
    destruct (String.eqb k section); [now injection Hsec as <-|auto]. }
  rewrite find_objectAssign, Hfind by exact Hvalues.
  now destruct (Config.find section stored).
Qed.

Lemma X18_config_update_frame_witness :
  Config.get
    (Config.update [("api", [("app", Js.VStr "old")])]
       [("api", [("token", Js.VStr "T")])])
    "api" "app" Js.VNull
  = Config.get [("api", [("app", Js.VStr "old")])] "api" "app" Js.VNull.
Proof.
  apply X18_config_update_frame.
  - repeat constructor.
  - repeat constructor.
  - reflexivity.
  - reflexivity.
  - split; repeat constructor; cbn; intuition discriminate.
  - reflexivity.
Defined.

(* ================================================================== *)
(** * Further properties of format canonicalization *)

Section CanonicalFacts.
Import Misc.

Lemma lowerChar_dot (c : ascii) : lowerChar c = "."%char -> c = "."%char.
Proof.
  destruct c as [[] [] [] [] [] [] [] []]; vm_compute; intros H;
    first [reflexivity | discriminate H].
Qed.

Lemma trimStart_toLowerCase (s : string) :
  trimStart (toLowerCase s) = toLowerCase (trimStart s).
Proof.
  induction s as [|c s IH]; [reflexivity|].
  cbn [toLowerCase trimStart]. rewrite isWhiteSpace_lowerChar.
  destruct (isWhiteSpace c); [exact IH|reflexivity].
Qed.

Lemma trim_toLowerCase (s : string) :
  trim (toLowerCase s) = toLowerCase (trim s).
Proof. unfold trim. now rewrite trimEnd_toLowerCase, trimStart_toLowerCase. Qed.

Lemma trim_idempotent (s : string) : trim (trim s) = trim s.
Proof.
  unfold trim.
  rewrite (trimEnd_fixed_trimStart (trimEnd s)) by apply trimEnd_idempotent.
  clear. induction (trimEnd s) as [|c t IH]; [reflexivity|].
  cbn [trimStart]. destruct (isWhiteSpace c) eqn:W; [exact IH|].
  cbn [trimStart]. now rewrite W.
Qed.

(** The result is a function of the trimmed, lower-cased input alone; the
    early return on the empty string is the same function's value. *)
Lemma canonicalizeFormat_body (s : string) :
  canonicalizeFormat (Some s)
  = nonEmpty (if String.prefix "." (toLowerCase (trim s))
              then slice1 (toLowerCase (trim s))
              else toLowerCase (trim s)).
Proof. now destruct s. Qed.

Lemma trimEnd_keeps_head (c : ascii) (s : string) :
  isWhiteSpace c = false ->
  exists kept, trimEnd (String c s) = String c kept /\ kept = trimEnd s.
Proof.
  intros W. cbn [trimEnd]. destruct (trimEnd s) as [|d kept].
  - rewrite W. now exists EmptyString.
  - now eexists.
Qed.

End CanonicalFacts.

(** X19. Whatever [canonicalizeFormat] returns, when it is not
    [undefined], is a non-empty string in lower case without trailing
    white space. *)
Theorem X19_canonical_form_shape :
  forall (formatName : option string) (canonical : string),
    Misc.canonicalizeFormat formatName = Some canonical ->
    canonical <> EmptyString
    /\ Misc.toLowerCase canonical = canonical
    /\ Misc.trimEnd canonical = canonical.
Proof.
  intros [s|] canonical; [|discriminate].
  rewrite canonicalizeFormat_body.
  destruct (canonical_body s) as [Hend Hlow]. cbv zeta in Hend, Hlow.
  destruct (if String.prefix "." (Misc.toLowerCase (Misc.trim s))
            then Misc.slice1 (Misc.toLowerCase (Misc.trim s))
            else Misc.toLowerCase (Misc.trim s)) as [|c body];
    [discriminate|].
  cbn [Misc.nonEmpty]. intros H. injection H as <-.
  repeat split; [discriminate|exact Hlow|exact Hend].
Qed.

Lemma X19_canonical_form_shape_witness :
  "svg:font" <> EmptyString
  /\ Misc.toLowerCase "svg:font" = "svg:font"
  /\ Misc.trimEnd "svg:font" = "svg:font".
Proof.
  apply (X19_canonical_form_shape (Some "  .SVG:Font ") "svg:font").
  reflexivity.
Defined.

(** X20. [canonicalizeFormat] ignores letter case: two names with the
    same lower-case form have the same canonical form. *)
Theorem X20_canonicalizeFormat_ignores_case :
  forall s1 s2 : string,
    Misc.toLowerCase s1 = Misc.toLowerCase s2 ->
    Misc.canonicalizeFormat (Some s1) = Misc.canonicalizeFormat (Some s2).
Proof.
  intros s1 s2 H. rewrite !canonicalizeFormat_body.
  now rewrite <- !trim_toLowerCase, H.
Qed.

Lemma X20_canonicalizeFormat_ignores_case_witness :
  Misc.canonicalizeFormat (Some ".Docx") = Misc.canonicalizeFormat (Some ".dOCX").
Proof.
  apply (X20_canonicalizeFormat_ignores_case ".Docx" ".dOCX"). reflexivity.
Defined.

(** X21. [canonicalizeFormat] ignores surrounding white space: two names
    that trim to the same string have the same canonical form; a name of
    white space only gives [undefined] like the empty name. *)
Theorem X21_canonicalizeFormat_ignores_outer_space :
  forall s1 s2 : string,
    Misc.trim s1 = Misc.trim s2 ->
    Misc.canonicalizeFormat (Some s1) = Misc.canonicalizeFormat (Some s2).
Proof.
  intros s1 s2 H. rewrite !canonicalizeFormat_body. now rewrite H.
Qed.

Lemma X21_canonicalizeFormat_ignores_outer_space_witness :
  Misc.canonicalizeFormat (Some "   ") = Misc.canonicalizeFormat (Some "").
Proof.
  apply (X21_canonicalizeFormat_ignores_outer_space "   " ""). reflexivity.
Defined.

(** X22. The leading dot is optional: for a name that begins neither
    with a dot nor with white space, the name and the name behind a dot
    have the same canonical form. *)
Theorem X22_canonicalizeFormat_dot_optional :
  forall s : string,
    Misc.startsWithDotOrSpace (Some s) = false ->
    Misc.canonicalizeFormat (Some (String "." s))
    = Misc.canonicalizeFormat (Some s).
Proof.
  intros s Hclean. rewrite !canonicalizeFormat_body. unfold Misc.trim.
  destruct (trimEnd_keeps_head "." s eq_refl) as (kept & -> & ->).
  cbn [Misc.trimStart Misc.isWhiteSpace].
  change (Misc.isWhiteSpace ".") with false. cbn iota.
  cbn [Misc.toLowerCase]. change (Misc.lowerChar ".") with "."%char.
  cbn [String.prefix]. destruct (ascii_dec "." ".") as [_|N]; [|congruence].
  assert (Hpre : String.prefix "" (Misc.toLowerCase (Misc.trimEnd s)) = true)
    by now destruct (Misc.toLowerCase (Misc.trimEnd s)).
  rewrite Hpre. cbn [Misc.slice1].
  destruct s as [|c s]; [reflexivity|].
  cbn [Misc.startsWithDotOrSpace] in Hclean.
  apply orb_false_iff in Hclean as [W Hdot].
  destruct (trimEnd_keeps_head c s W) as (kept & -> & _).
  cbn [Misc.trimStart]. rewrite W. cbn [Misc.toLowerCase String.prefix].
  destruct (ascii_dec "." (Misc.lowerChar c)) as [E|_]; [|reflexivity].
  symmetry in E. apply lowerChar_dot in E. subst c. discriminate Hdot.
Qed.

Lemma X22_canonicalizeFormat_dot_optional_witness :
  Misc.canonicalizeFormat (Some (String "." "Pdf "))
  = Misc.canonicalizeFormat (Some "Pdf ").
Proof.
  apply (X22_canonicalizeFormat_dot_optional "Pdf "). reflexivity.
Defined.

(** X23. When a canonical form begins with a dot or with white space,
    canonicalizing it again gives something else: the second pass removes
    what the first one uncovered. *)
Theorem X23_canonicalizeFormat_second_pass_differs :
  forall formatName : option string,
    Misc.startsWithDotOrSpace (Misc.canonicalizeFormat formatName) = true ->
    Misc.canonicalizeFormat (Misc.canonicalizeFormat formatName)
    <> Misc.canonicalizeFormat formatName.
Proof. intros formatName. apply canonicalizeFormat_unstable. Qed.

Lemma X23_canonicalizeFormat_second_pass_differs_witness :
  Misc.canonicalizeFormat (Misc.canonicalizeFormat (Some ". tar.gz"))
  <> Misc.canonicalizeFormat (Some ". tar.gz").
Proof.
  apply (X23_canonicalizeFormat_second_pass_differs (Some ". tar.gz")).
  reflexivity.
Defined.

(* ================================================================== *)
(** * Properties of the conversion workflow *)

Section ChainFacts.
Import Js Exceptions Workflow Chain.

Lemma readPath_two (v : value) (a b : string) :
  bind (read v a) (fun r => read r b) = readPath v [a; b].
Proof.
  cbn [readPath]. destruct (read v a) as [x|e]; [|reflexivity].
  cbn [bind]. now destruct (read x b).
Qed.

Lemma readPath_three (v : value) (a b c : string) :
  bind (bind (read v a) (fun r => read r b)) (fun o => read o c)
  = readPath v [a; b; c].
Proof.
  cbn [readPath]. destruct (read v a) as [x|e]; [|reflexivity].
  cbn [bind]. destruct (read x b) as [y|e]; [|reflexivity].
  cbn [bind]. now destruct (read y c).
Qed.

Lemma readPath_app (p q : list string) :
  forall v, readPath v (p ++ q) = bind (readPath v p) (fun x => readPath x q).
Proof.
  induction p as [|key p IH]; intros v; [reflexivity|].
  cbn [app readPath]. destruct (read v key) as [x|e]; [|reflexivity].
  cbn [bind]. apply IH.
Qed.

End ChainFacts.

(** X24. [startConversion] sets the connector only when the conversion
    was accepted as running: when it returns normally it has uploaded,
    then requested the conversion of the uploaded connector, the answer's
    [entity.status] was ['running'] and the connector is the answer's
    [entity.id]; when it throws, the conversion's fields are untouched;
    a failed upload is not followed by a conversion request; an answer
    whose status is anything else raises [EntityStatusNotRunningError]. *)
Theorem X24_startConversion_guard :
  forall (this this' : Workflow.conversion)
         (uploadFile : Js.completion Exceptions.exception Js.value)
         (convertFile : Js.value -> Js.completion Exceptions.exception Js.value)
         (calls : list Workflow.call)
         (outcome : Js.completion Exceptions.exception unit),
    Workflow.startConversion this uploadFile convertFile = (calls, this', outcome) ->
    (outcome = Js.Ok tt ->
     exists uploadResp uploadConnector convertResp,
       uploadFile = Js.Ok uploadResp
       /\ Chain.readPath uploadResp ["result"; "output"; "connector"]
          = Js.Ok uploadConnector
       /\ calls = [Workflow.UploadFile; Workflow.ConvertFile uploadConnector]
       /\ convertFile uploadConnector = Js.Ok convertResp
       /\ Chain.readPath convertResp ["entity"; "status"] = Js.Ok (Js.VStr "running")
       /\ Chain.readPath convertResp ["entity"; "id"]
          = Js.Ok (Workflow.convertConnector this')
       /\ Workflow.convertStatus this' = Workflow.convertStatus this
       /\ Workflow.credits this' = Workflow.credits this)
    /\ (forall e, outcome = Js.Throw e -> this' = this)
    /\ (forall e, uploadFile = Js.Throw e ->
                  calls = [Workflow.UploadFile] /\ outcome = Js.Throw e)
    /\ (forall uploadResp uploadConnector convertResp status,
           uploadFile = Js.Ok uploadResp ->
           Chain.readPath uploadResp ["result"; "output"; "connector"]
           = Js.Ok uploadConnector ->
           convertFile uploadConnector = Js.Ok convertResp ->
           Chain.readPath convertResp ["entity"; "status"] = Js.Ok status ->
           Workflow.strictEquals status "running" = false ->
           outcome = Js.Throw (Exceptions.mkException
                                 Exceptions.EntityStatusNotRunningError "")).
Proof.
  intros this this' uploadFile convertFile calls outcome.
  unfold Workflow.startConversion.
  assert (Hsame : forall (A : Type) (x y : A), Js.Ok x = @Js.Ok Exceptions.exception A y -> x = y)
    by (intros A x y H; now injection H).
  destruct uploadFile as [uploadResp|e0].
  2:{ intros H; injection H as <- <- <-.
      split; [discriminate|]. split; [congruence|]. split; [|discriminate].
      intros e He. injection He as <-. now split. }
  rewrite readPath_three.
  destruct (Chain.readPath uploadResp ["result"; "output"; "connector"])
    as [uploadConnector|e1] eqn:Hconn.
  2:{ intros H; injection H as <- <- <-.
      split; [discriminate|]. split; [congruence|]. split; [discriminate|].
      intros ? ? ? ? Hu Hc. apply Hsame in Hu as <-. congruence. }
  destruct (convertFile uploadConnector) as [convertResp|e2] eqn:Hconvert.
  2:{ intros H; injection H as <- <- <-.
      split; [discriminate|]. split; [congruence|]. split; [discriminate|].
      intros ? ? ? ? Hu Hc. apply Hsame in Hu as <-.
      rewrite Hconn in Hc. apply Hsame in Hc as <-. congruence. }
  rewrite !readPath_two.
  destruct (Chain.readPath convertResp ["entity"; "status"])
    as [status|e3] eqn:Hstatus.
  2:{ intros H; injection H as <- <- <-.
      split; [discriminate|]. split; [congruence|]. split; [discriminate|].
      intros ? ? ? ? Hu Hc Hf Hs. apply Hsame in Hu as <-.
      rewrite Hconn in Hc. apply Hsame in Hc as <-.
      rewrite Hconvert in Hf. apply Hsame in Hf as <-. congruence. }
  destruct (Workflow.strictEquals status "running") eqn:Hrun; cbn [negb].
  2:{ intros H; injection H as <- <- <-.
      split; [discriminate|]. split; [congruence|]. split; [discriminate|].
      reflexivity. }
  assert (Hlit : status = Js.VStr "running").
  { destruct status; try discriminate. cbn in Hrun.
    apply String.eqb_eq in Hrun. now subst. }
  assert (Hguard : forall uploadResp0 uploadConnector0 convertResp0 status0,
             @Js.Ok Exceptions.exception _ uploadResp = Js.Ok uploadResp0 ->
             Chain.readPath uploadResp0 ["result"; "output"; "connector"]
             = Js.Ok uploadConnector0 ->
             convertFile uploadConnector0 = Js.Ok convertResp0 ->
             Chain.readPath convertResp0 ["entity"; "status"] = Js.Ok status0 ->
             Workflow.strictEquals status0 "running" = false -> False).
  { intros ? ? ? ? Hu Hc Hf Hs Hr. apply Hsame in Hu as <-.
    rewrite Hconn in Hc. apply Hsame in Hc as <-.
    rewrite Hconvert in Hf. apply Hsame in Hf as <-.
    rewrite Hstatus in Hs. apply Hsame in Hs as <-. congruence. }
  destruct (Chain.readPath convertResp ["entity"; "id"]) as [id|e4] eqn:Hid.
  2:{ intros H; injection H as <- <- <-.
      split; [discriminate|]. split; [congruence|]. split; [discriminate|].
      intros ? ? ? ? Hu Hc Hf Hs Hr. exfalso. eapply Hguard; eassumption. }
  intros H; injection H as <- <- <-.
  split; [|split; [discriminate|split; [discriminate|]]].
  - intros _. exists uploadResp, uploadConnector, convertResp.
    cbn [Workflow.convertConnector Workflow.convertStatus Workflow.credits].
    subst status. repeat split; assumption.
  - intros ? ? ? ? Hu Hc Hf Hs Hr. exfalso. eapply Hguard; eassumption.
Qed.

Lemma X24_startConversion_guard_witness :
  let uploadResp :=
    Js.VObj [("result", Js.VObj [("output", Js.VObj [("connector", Js.VStr "up-1")])])] in
  let convertResp :=
    Js.VObj [("entity", Js.VObj [("id", Js.VStr "task-9"); ("status", Js.VStr "running")])] in
  let this' := Workflow.mkConversion (Js.VStr "task-9") Js.VUndefined Js.VUndefined in
  exists uploadResp0 uploadConnector convertResp0,
    @Js.Ok Exceptions.exception _ uploadResp = Js.Ok uploadResp0
    /\ Chain.readPath uploadResp0 ["result"; "output"; "connector"]
       = Js.Ok uploadConnector
    /\ [Workflow.UploadFile; Workflow.ConvertFile (Js.VStr "up-1")]
       = [Workflow.UploadFile; Workflow.ConvertFile uploadConnector]
    /\ @Js.Ok Exceptions.exception _ convertResp = Js.Ok convertResp0
    /\ Chain.readPath convertResp0 ["entity"; "status"] = Js.Ok (Js.VStr "running")
    /\ Chain.readPath convertResp0 ["entity"; "id"]
       = Js.Ok (Workflow.convertConnector this')
    /\ Workflow.convertStatus this' = Workflow.convertStatus Workflow.created
    /\ Workflow.credits this' = Workflow.credits Workflow.created.
Proof.
  intros uploadResp convertResp this'.
  apply (X24_startConversion_guard Workflow.created this' (Js.Ok uploadResp)
           (fun _ => Js.Ok convertResp)
           [Workflow.UploadFile; Workflow.ConvertFile (Js.VStr "up-1")]
           (Js.Ok tt)).
  - reflexivity.
  - reflexivity.
Defined.

(** X25. A status poll that returns normally never changes the
    connector and reports the task status found at
    [result.output.entity.status]; it always rewrites the conversion
    status, to [result.output.result.output.status] when the inner result
    is present (truthy) and to [undefined] otherwise, so [successful()]
    never reflects an earlier poll; the credits are rewritten only in the
    first case and otherwise stay what they were. *)
Theorem X25_status_poll_postcondition :
  forall (this this' : Workflow.conversion) (response : Js.value)
         (status : Workflow.taskStatus),
    Workflow.getConvertTaskStatus this (Js.Ok response) = (this', Js.Ok status) ->
    Workflow.convertConnector this' = Workflow.convertConnector this
    /\ Chain.readPath response ["result"; "output"; "entity"; "status"]
       = Js.Ok (Workflow.task status)
    /\ Workflow.convert status = Workflow.convertStatus this'
    /\ Workflow.creditsField status = Workflow.credits this'
    /\ exists inner,
         Chain.readPath response ["result"; "output"; "result"] = Js.Ok inner
         /\ (Js.truthy inner = true ->
             Chain.readPath response
               ["result"; "output"; "result"; "output"; "status"]
             = Js.Ok (Workflow.convertStatus this')
             /\ Chain.readPath response ["result"; "output"; "entity"; "vcredits"]
                = Js.Ok (Workflow.credits this'))
         /\ (Js.truthy inner = false ->
             Workflow.convertStatus this' = Js.VUndefined
             /\ Workflow.credits this' = Workflow.credits this).
Proof.
  intros this this' response status. unfold Workflow.getConvertTaskStatus.
  rewrite readPath_two.
  change ["result"; "output"; "entity"; "status"]
    with (["result"; "output"] ++ ["entity"; "status"])%list.
  change ["result"; "output"; "entity"; "vcredits"]
    with (["result"; "output"] ++ ["entity"; "vcredits"])%list.
  change ["result"; "output"; "result"; "output"; "status"]
    with (["result"; "output"] ++ ["result"] ++ ["output"; "status"])%list.
  change ["result"; "output"; "result"]
    with (["result"; "output"] ++ ["result"])%list.
  rewrite !readPath_app.
  destruct (Chain.readPath response ["result"; "output"]) as [resultOutput|e];
    [|discriminate].
  cbn [Js.bind]. rewrite !readPath_app.
  assert (Hone : Chain.readPath resultOutput ["result"]
                 = Workflow.read resultOutput "result")
    by (cbn [Chain.readPath]; now destruct (Workflow.read resultOutput "result")).
  rewrite Hone.
  destruct (Workflow.read resultOutput "result") as [inner|e]; [|discriminate].
  cbn [Js.bind]. rewrite !readPath_two.
  destruct (Js.truthy inner) eqn:Htruthy.
  - destruct (Chain.readPath inner ["output"; "status"]) as [conv|e];
      [|intros H; discriminate].
    destruct (Chain.readPath resultOutput ["entity"; "vcredits"]) as [vc|e];
      [|intros H; discriminate].
    destruct (Chain.readPath resultOutput ["entity"; "status"]) as [t|e];
      [|intros H; discriminate].
    intros H. injection H as <- <-.
    cbn [Workflow.convertConnector Workflow.convertStatus Workflow.credits
         Workflow.task Workflow.convert Workflow.creditsField].
    repeat split. exists inner. repeat split; congruence.
  - destruct (Chain.readPath resultOutput ["entity"; "status"]) as [t|e];
      [|intros H; discriminate].
    intros H. injection H as <- <-.
    cbn [Workflow.convertConnector Workflow.convertStatus Workflow.credits
         Workflow.task Workflow.convert Workflow.creditsField].
    repeat split. exists inner. repeat split; congruence.
Qed.

Lemma X25_status_poll_postcondition_witness :
  let this := Workflow.mkConversion (Js.VStr "task-9") (Js.VStr "successful") (Js.VNum 3) in
  let this' := Workflow.mkConversion (Js.VStr "task-9") Js.VUndefined (Js.VNum 3) in
  let response := Workflow.statusEnvelope (Js.VStr "running") Js.VUndefined Js.VUndefined in
  let status := Workflow.mkTaskStatus (Js.VStr "running") (Js.VNum 3) Js.VUndefined in
  Workflow.convertConnector this' = Workflow.convertConnector this
  /\ Chain.readPath response ["result"; "output"; "entity"; "status"]
     = Js.Ok (Workflow.task status)
  /\ Workflow.convert status = Workflow.convertStatus this'
  /\ Workflow.creditsField status = Workflow.credits this'
  /\ exists inner,
       Chain.readPath response ["result"; "output"; "result"] = Js.Ok inner
       /\ (Js.truthy inner = true ->
           Chain.readPath response
             ["result"; "output"; "result"; "output"; "status"]
           = Js.Ok (Workflow.convertStatus this')
           /\ Chain.readPath response ["result"; "output"; "entity"; "vcredits"]
              = Js.Ok (Workflow.credits this'))
       /\ (Js.truthy inner = false ->
           Workflow.convertStatus this' = Js.VUndefined
           /\ Workflow.credits this' = Workflow.credits this).
Proof.
  intros this this' response status.
  apply (X25_status_poll_postcondition this this' response status).
  reflexivity.
Defined.

Section WorkflowWait.
Import Js Exceptions Conversion.

Lemma numeric_intervals (secs : list Z) (k : nat) :
  secs <> [] ->
  nth (stepAt (map VNum secs) k) (map VNum secs) VUndefined
  = VNum (nth (stepAt (map VNum secs) k) secs 0).
Proof.
  intros Hne. rewrite (nth_indep _ VUndefined (VNum 0)).
  - now rewrite (map_nth VNum).
  - unfold stepAt. rewrite length_map.
    destruct secs; [congruence|]. cbn [List.length]. lia.
Qed.

(** Polls that find the task not completed and no inner result: as many
    sleeps, the conversion status unset, the credits untouched. *)
Lemma workflow_waitLoop_running (secs : list Z) (Hne : secs <> [])
    (runs : list (value * value)) :
  Forall (fun run => Workflow.strictEquals (fst run) "completed" = false) runs ->
  forall j sleeps rest this,
    Workflow.waitLoop (map VNum secs)
      (map (fun run => Ok (Workflow.statusEnvelope (fst run) VUndefined (snd run)))
           runs ++ rest)
      (stepAt (map VNum secs) j) sleeps this
    = Workflow.waitLoop (map VNum secs) rest
        (stepAt (map VNum secs) (j + List.length runs))
        (sleeps ++ map (sleepAt (map VNum secs)) (seq j (List.length runs)))
        (match runs with
         | [] => this
         | _ :: _ =>
             Workflow.mkConversion (Workflow.convertConnector this) VUndefined
               (Workflow.credits this)
         end).
Proof.
  induction 1 as [|[t vc] runs Ht _ IH]; intros j sleeps rest this.
  - cbn. now rewrite Nat.add_0_r, app_nil_r.
  - cbn [map app Workflow.waitLoop fst snd] in *.
    change (Workflow.done this (Ok (Workflow.statusEnvelope t VUndefined vc)))
      with (Workflow.mkConversion (Workflow.convertConnector this) VUndefined
              (Workflow.credits this),
            @Ok exception bool (Workflow.strictEquals t "completed")).
    rewrite Ht, numeric_intervals, stepAt_next by exact Hne.
    rewrite IH. cbn [List.length seq map].
    unfold sleepAt at 2. rewrite numeric_intervals by exact Hne.
    cbn [seconds]. rewrite <- app_assoc. cbn [app].
    rewrite Nat.add_succ_r.
    now destruct runs.
Qed.

End WorkflowWait.

(** X26. The polling workflow end to end, for a non-empty sequence of
    numeric intervals: after any number [n] of polls that find the task
    not completed, the poll that finds it ['completed'] with an inner
    result ends [wait] after exactly [n] sleeps (the clamped schedule of
    C6); from then on [successful()] is true exactly when that result's
    status is ['successful'], [creditsUsed] is the [vcredits] it reported,
    and the connector is unchanged. *)
Theorem X26_wait_happy_path :
  forall (secs : list Z) (runs : list (Js.value * Js.value))
         (status vcredits : Js.value)
         (rest : list (Js.completion Exceptions.exception Js.value))
         (this : Workflow.conversion),
    secs <> [] ->
    Forall (fun run => Workflow.strictEquals (fst run) "completed" = false) runs ->
    let pollIntervals := map Js.VNum secs in
    let final :=
      Workflow.mkConversion (Workflow.convertConnector this) status vcredits in
    Workflow.wait this pollIntervals
      (map (fun run =>
              Js.Ok (Workflow.statusEnvelope (fst run) Js.VUndefined (snd run)))
           runs
       ++ Js.Ok (Workflow.statusEnvelope (Js.VStr "completed")
                   (Workflow.conversionResult status) vcredits)
       :: rest)
    = (Conversion.sleepsFor pollIntervals (List.length runs),
       Conversion.Resolved, final)
    /\ Workflow.successful final = Workflow.strictEquals status "successful"
    /\ Workflow.creditsUsed final = vcredits.
Proof.
  intros secs runs status vcredits rest this Hne Hruns pollIntervals final.
  split; [|split; reflexivity].
  unfold Workflow.wait, pollIntervals.
  change 0%nat with (Conversion.stepAt (map Js.VNum secs) 0) at 1.
  rewrite workflow_waitLoop_running by assumption.
  cbn [Workflow.waitLoop app Nat.add].
  unfold Conversion.sleepsFor, final. now destruct runs.
Qed.

Lemma X26_wait_happy_path_witness :
  let pollIntervals := map Js.VNum [10; 10; 15] in
  let runs := [(Js.VStr "running", Js.VUndefined); (Js.VStr "running", Js.VUndefined)] in
  let this := Workflow.mkConversion (Js.VStr "task-9") Js.VUndefined Js.VUndefined in
  let final := Workflow.mkConversion (Workflow.convertConnector this)
                 (Js.VStr "successful") (Js.VNum 2) in
  Workflow.wait this pollIntervals
    (map (fun run =>
            Js.Ok (Workflow.statusEnvelope (fst run) Js.VUndefined (snd run)))
         runs
     ++ Js.Ok (Workflow.statusEnvelope (Js.VStr "completed")
                 (Workflow.conversionResult (Js.VStr "successful")) (Js.VNum 2))
     :: [])
  = (Conversion.sleepsFor pollIntervals (List.length runs),
     Conversion.Resolved, final)
  /\ Workflow.successful final
     = Workflow.strictEquals (Js.VStr "successful") "successful"
  /\ Workflow.creditsUsed final = Js.VNum 2.
Proof.
  intros pollIntervals runs this final.
  apply (X26_wait_happy_path [10; 10; 15] runs (Js.VStr "successful")
           (Js.VNum 2) [] this).
  - discriminate.
  - repeat constructor.
Defined.

(** A completed task whose conversion failed: [wait] resolves, and
    [successful()] is false. *)
Example wait_completed_but_failed :
  let final :=
    snd (Workflow.wait Workflow.created Conversion.SLEEP_PATTERN
           [Js.Ok (Workflow.statusEnvelope (Js.VStr "completed")
                     (Workflow.conversionResult (Js.VStr "failed")) (Js.VNum 1))]) in
  Workflow.successful final = false /\ Workflow.creditsUsed final = Js.VNum 1.
Proof. split; reflexivity. Qed.

(** X27. An error thrown by a status poll ends [wait] with that very
    error, after the sleeps already made and without a further sleep,
    however many polls came before. *)
Theorem X27_wait_propagates_poll_error :
  forall (pollIntervals : list Js.value) (n : nat)
         (error : Exceptions.exception)
         (rest : list (Js.completion Exceptions.exception bool)),
    (forall k, (k < n)%nat ->
       Conversion.isNumber
         (nth (Conversion.stepAt pollIntervals k) pollIntervals Js.VUndefined)
       = true) ->
    Conversion.wait pollIntervals
      (repeat (Js.Ok false) n ++ Js.Throw error :: rest)
    = (Conversion.sleepsFor pollIntervals n, Conversion.Rejected error).
Proof.
  intros pollIntervals n error rest Hnum.
  now rewrite wait_running by exact Hnum.
Qed.

Lemma X27_wait_propagates_poll_error_witness :
  let error := Exceptions.mkException Exceptions.NetworkConnectionError
                 "All 5 retries failed! Error: fetch failed" in
  Conversion.wait Conversion.SLEEP_PATTERN
    (repeat (Js.Ok false) 4 ++ Js.Throw error :: [])
  = (Conversion.sleepsFor Conversion.SLEEP_PATTERN 4, Conversion.Rejected error).
Proof.
  intros error.
  apply (X27_wait_propagates_poll_error Conversion.SLEEP_PATTERN 4 error []).
  intros k Hk.
  destruct k as [|[|[|[|k]]]]; reflexivity.
Defined.

(* ================================================================== *)
(** * Properties of the field parser *)

Section FieldsFacts.
Import Js Fields.

(** The loop adds to the two maps without disturbing the keys it does not
    meet. *)
Lemma split_lookup (replace : option (list (string * string))) (key : string) :
  forall params data file,
    NoDup (map fst params) ->
    let result := split params replace data file in
    match Config.find key params with
    | Some (Text text) =>
        Config.find key (fst result) = Some (applyReplace replace text)
        /\ Config.find key (snd result) = Config.find key file
    | Some (File f) =>
        Config.find key (snd result) = Some f
        /\ Config.find key (fst result) = Config.find key data
    | None =>
        Config.find key (fst result) = Config.find key data
        /\ Config.find key (snd result) = Config.find key file
    end.
Proof.
  induction params as [|[k val] params IH]; intros data file Hnd; cbn zeta.
  - cbn. auto.
  - cbn [map fst] in Hnd. inversion Hnd as [|? ? Hnotin Hnd']; subst.
    cbn [Config.find split].
    destruct (String.eqb_spec k key) as [->|Hk].
    + pose proof (find_absent key params Hnotin) as Habs.
      destruct val as [text|f].
      * specialize (IH (Config.assign key (applyReplace replace text) data)
                       file Hnd').
        cbn zeta in IH. rewrite Habs in IH. destruct IH as [Hd Hf].
        now rewrite Hd, Hf, find_assign_same.
      * specialize (IH data (Config.assign key f file) Hnd').
        cbn zeta in IH. rewrite Habs in IH. destruct IH as [Hd Hf].
        now rewrite Hd, Hf, find_assign_same.
    + destruct val as [text|f].
      * specialize (IH (Config.assign k (applyReplace replace text) data)
                       file Hnd').
        cbn zeta in IH.
        rewrite find_assign_other in IH by congruence. exact IH.
      * specialize (IH data (Config.assign k f file) Hnd').
        cbn zeta in IH.
        rewrite find_assign_other in IH by congruence. exact IH.
Qed.

Lemma find_orUndefined (A : Type) (key : string) (obj : list (string * A)) :
  match orUndefined obj with
  | Some o => Config.find key o
  | None => None
  end = Config.find key obj.
Proof. now destruct obj. Qed.

End FieldsFacts.

(** X28. For fields whose names are none of the names objects inherit,
    [parseFieldParameters] sorts every field by the type of its value and
    loses none: a string field is found in [data], with the replacement
    applied, and not in [file]; any other field is found in [file],
    unchanged, and not in [data]; a key that [params] lacks is among the
    own keys of neither. *)
Theorem X28_parseFieldParameters_partition :
  forall (params : list (string * Fields.fieldValue))
         (replace : option (list (string * string))) (key : string),
    Forall (fun name => ObjectPrototype.ownOnly name = true) (map fst params) ->
    NoDup (map fst params) ->
    let result := Fields.parseFieldParameters (Some params) replace in
    let inData := match fst result with
                  | Some data => Config.find key data
                  | None => None
                  end in
    let inFile := match snd result with
                  | Some file => Config.find key file
                  | None => None
                  end in
    match Config.find key params with
    | Some (Fields.Text text) =>
        inData = Some (Fields.applyReplace replace text) /\ inFile = None
    | Some (Fields.File f) => inFile = Some f /\ inData = None
    | None => inData = None /\ inFile = None
    end.
Proof.
  intros params replace key _ Hnd. cbv zeta.
  unfold Fields.parseFieldParameters.
  pose proof (split_lookup replace key params [] [] Hnd) as H.
  cbv zeta in H.
  destruct (Fields.split params replace [] []) as [data file].
  cbn [fst snd] in *. rewrite !find_orUndefined.
  destruct (Config.find key params) as [[text|f]|]; exact H.
Qed.

Lemma X28_parseFieldParameters_partition_witness :
  let file := Fields.mkFileField (StreamChunker.NodeReadable []) "upload.bin"
                "application/octet-stream" 4096 in
  let result := Fields.parseFieldParameters
                  (Some [("data", Fields.Text "{}"); ("file", Fields.File file)])
                  (Some [("%app-id%", "free")]) in
  match fst result with
  | Some data => Config.find "data" data
  | None => None
  end = Some (Fields.applyReplace (Some [("%app-id%", "free")]) "{}")
  /\ match snd result with
     | Some f => Config.find "data" f
     | None => None
     end = None.
Proof.
  intros file result.
  apply (X28_parseFieldParameters_partition
           [("data", Fields.Text "{}"); ("file", Fields.File file)]
           (Some [("%app-id%", "free")]) "data").
  - repeat constructor.
  - repeat constructor; cbn; intuition discriminate.
Defined.

(** X29. [applyReplace] returns the text as it is when no entry of the
    replacement map can apply to it: the map is missing or empty, or every
    entry has an empty side or a pattern that does not occur in the text;
    entries behind the first one with two non-empty sides are never
    used. *)
Theorem X29_applyReplace_unchanged :
  forall (entries : list (string * string)) (text : string),
    (forall from to,
        In (from, to) entries ->
        Fields.nonEmptyString from && Fields.nonEmptyString to = true ->
        Fields.indexOf from text = None) ->
    Fields.applyReplace (Some entries) text = text
    /\ Fields.applyReplace None text = text
    /\ (forall from to later,
           Fields.nonEmptyString from && Fields.nonEmptyString to = true ->
           Fields.applyReplace (Some ((from, to) :: later)) text
           = Fields.replace text from to).
Proof.
  intros entries text Hnone. split; [|split].
  - cbn [Fields.applyReplace].
    induction entries as [|[from to] entries IH]; [reflexivity|].
    cbn [Fields.applyEntries].
    destruct (Fields.nonEmptyString from && Fields.nonEmptyString to) eqn:E.
    + unfold Fields.replace.
      now rewrite (Hnone from to (or_introl eq_refl) E).
    + apply IH. intros f t Hin. apply Hnone. now right.
  - reflexivity.
  - intros from to later E. cbn. now rewrite E.
Qed.

Lemma X29_applyReplace_unchanged_witness :
  let text := "{'app':'free'}" in
  Fields.applyReplace (Some [("", "x"); ("%app-id%", "free")]) text = text
  /\ Fields.applyReplace None text = text
  /\ (forall from to later,
         Fields.nonEmptyString from && Fields.nonEmptyString to = true ->
         Fields.applyReplace (Some ((from, to) :: later)) text
         = Fields.replace text from to).
Proof.
  intros text.
  apply (X29_applyReplace_unchanged [("", "x"); ("%app-id%", "free")] text).
  intros from to [H|[H|[]]] E; injection H as <- <-.
  - discriminate E.
  - reflexivity.
Defined.

(** The identifier is substituted once, at its first occurrence. *)
Example applyReplace_first_occurrence :
  Fields.applyReplace (Some [("%app-id%", "free")]) "a=%app-id%&b=%app-id%"
  = "a=free&b=%app-id%"
  /\ Fields.replace "x-%app-id%" "%app-id%" "[$&|$$]" = "x-[%app-id%|$]".
Proof. split; reflexivity. Qed.
